(** * Calculate and Conquer: the game engine reducer and the high-score store

    A shallow embedding of [src/hooks/useGameEngine.ts] (the reducer
    [gameReducer] and its helpers) and of [src/utils/highScores.ts]
    (the score store kept in [localStorage]), of the frame loop, of the
    key handler and the buttons of [GameCanvas], and of the menu.

    Conventions of the embedding.
    - JavaScript numbers that the code only ever fills with integers
      ([score], [lives], [level], answer values, clock readings) are [Z];
      numbers that hold arbitrary reals (positions, the countdown, time
      deltas, the outcomes of [Math.random]) are canonical rationals [Qc],
      so that equal numbers are equal terms.  [NaN] and the infinities
      have no counterpart among them: the properties of the engine are
      about dispatches that carry numbers.
    - The reducer reads the clock, draws random numbers and writes to
      [localStorage]; these effects are threaded through a [World].
    - [try]/[catch] is modelled with a completion type [Completion]. *)

From Stdlib Require Import ZArith QArith Qcanon Qround Lia Lqa Ascii.
From stdpp Require Import base decidable option numbers list strings gmap pretty.

Local Open Scope Z_scope.

(** ** JavaScript numbers *)

Module Math.

Definition max (a b : Qc) : Qc := if decide (a < b)%Qc then b else a.
Definition min (a b : Qc) : Qc := if decide (b < a)%Qc then b else a.
Definition floor (a : Qc) : Z := Qfloor a.

End Math.

(** [clamp v lo hi], the usual three-way definition. *)
Definition clamp (v lo hi : Qc) : Qc :=
  if decide (v < lo)%Qc then lo else if decide (hi < v)%Qc then hi else v.

(** ** Types of [src/types/game.ts] *)

Inductive GameStatus := menu | playing | gameOver.
Inductive OperationType := addition | subtraction | multiplication | division.
Inductive PracticeMode := all_numbers | specific_number.

Global Instance GameStatus_eq_dec : EqDecision GameStatus.
Proof. solve_decision. Defined.

Record GameSettings := {
  operation : OperationType;
  practiceMode : PracticeMode;
  specificNumber : option Z;
  practiceDuration : Z
}.

(** Modelled from the spec: [MathProblem] of [types/game.ts], which is not
    among the sources; the reducer reads [correctAnswer] only. *)
Record MathProblem := {
  operandA : Z;
  operandB : Z;
  problemOperation : OperationType;
  correctAnswer : Z
}.

Module FallingAnswer.
Record t := {
  id : string;
  value : Z;
  x : Qc;
  y : Qc;
  speed : Qc;
  isCorrect : bool
}.
End FallingAnswer.

Module Bullet.
Record t := {
  id : string;
  x : Qc;
  y : Qc;
  speed : Qc
}.
End Bullet.

Record GameState := {
  status : GameStatus;
  settings : option GameSettings;
  currentProblem : option MathProblem;
  fallingAnswers : list FallingAnswer.t;
  bullets : list Bullet.t;
  playerX : Qc;
  score : Z;
  lives : Z;
  level : Z;
  showingAnswer : bool;
  timeRemaining : Qc
}.

Inductive GameAction :=
  | START_GAME (settings : GameSettings)
  | MOVE_PLAYER (x : Qc)
  | SHOOT
  | UPDATE_BULLETS
  | UPDATE_GAME (deltaTime : Qc)
  | UPDATE_TIMER (deltaTime : Qc)
  | HIT_ANSWER (answerId : string)
  | MISS_ANSWER (answerId : string)
  | SHOW_CORRECT_ANSWER
  | NEXT_PROBLEM
  | GAME_OVER
  | RETURN_TO_MENU.

(** ** The world the engine runs in *)

(** An outcome of [Math.random()]: a number in [0, 1). *)
Record Draw := {
  draw : Qc;
  draw_range : bool_decide (0 ≤ draw ∧ draw < 1)%Qc
}.

(** The outcomes of the coming calls of [Math.random()]. *)
Definition Rng := nat → Draw.

Definition Math_random (rng : Rng) : Qc * Rng :=
  (draw (rng 0%nat), λ n, rng (S n)).

Module HighScore.
Record t := { score : Z; date : string }.
End HighScore.

(** The text kept under [HIGH_SCORES_KEY]: the empty string, or a text
    known by what [JSON.parse] makes of it, a [SyntaxError] or a [HighScores]
    object.  [getHighScores] is declared to return [HighScores]; text that
    parses to anything else is the subject of the module [Untyped] below. *)
Inductive StoredText :=
  | EmptyText
  | Malformed
  | Encoded (scores : gmap string HighScore.t).

(** [stored ? ... : ...]: the empty string is falsy. *)
Definition truthy (text : StoredText) : bool :=
  match text with
  | EmptyText => false
  | _ => true
  end.

Record LocalStorage := {
  getItem_throws : bool;
  setItem_throws : bool;
  item : option StoredText
}.

Record World := {
  random : Rng;
  clock : nat → Z;
  isoNow : string;
  storage : LocalStorage;
  console : list string
}.

(** [Date.now()]: the next reading of the clock. *)
Definition Date_now (w : World) : Z * World :=
  (clock w 0%nat,
   {| random := random w; clock := λ n, clock w (S n); isoNow := isoNow w;
      storage := storage w; console := console w |}).

Definition console_error (msg : string) (w : World) : World :=
  {| random := random w; clock := clock w; isoNow := isoNow w;
     storage := storage w; console := console w ++ [msg] |}.

Definition with_random (rng : Rng) (w : World) : World :=
  {| random := rng; clock := clock w; isoNow := isoNow w;
     storage := storage w; console := console w |}.

Definition with_storage (ls : LocalStorage) (w : World) : World :=
  {| random := random w; clock := clock w; isoNow := isoNow w;
     storage := ls; console := console w |}.

Inductive Completion (A : Type) :=
  | Normal (a : A)
  | Throw (error : string).
Arguments Normal {A} a.
Arguments Throw {A} error.

(** ** The score store, [src/utils/highScores.ts] *)

Definition localStorage_getItem (ls : LocalStorage) : Completion (option StoredText) :=
  if getItem_throws ls then Throw "SecurityError" else Normal (item ls).

Definition localStorage_setItem (scores : gmap string HighScore.t) (ls : LocalStorage)
    : Completion LocalStorage :=
  if setItem_throws ls then Throw "QuotaExceededError"
  else Normal {| getItem_throws := getItem_throws ls;
                 setItem_throws := setItem_throws ls;
                 item := Some (Encoded scores) |}.

Definition JSON_parse (text : StoredText) : Completion (gmap string HighScore.t) :=
  match text with
  | EmptyText | Malformed => Throw "SyntaxError"
  | Encoded scores => Normal scores
  end.

(** [n || 0] on a possibly undefined number. *)
Definition or_zero (n : option Z) : Z :=
  match n with
  | Some n => if decide (n = 0) then 0 else n
  | None => 0
  end.

Definition operationName (op : OperationType) : string :=
  match op with
  | addition => "addition"
  | subtraction => "subtraction"
  | multiplication => "multiplication"
  | division => "division"
  end.

Definition getScoreKey (settings : GameSettings) : string :=
  match practiceMode settings, specificNumber settings with
  | specific_number, Some n =>
      operationName (operation settings) +:+ "-specific-" +:+ pretty n +:+ "-"
        +:+ pretty (practiceDuration settings) +:+ "s"
  | _, _ =>
      operationName (operation settings) +:+ "-all-"
        +:+ pretty (practiceDuration settings) +:+ "s"
  end.

Definition getHighScores (w : World) : gmap string HighScore.t * World :=
  let attempt :=
    match localStorage_getItem (storage w) with
    | Throw e => Throw e
    | Normal None => Normal ∅
    | Normal (Some stored) => if truthy stored then JSON_parse stored else Normal ∅
    end in
  match attempt with
  | Normal scores => (scores, w)
  | Throw _ => (∅, console_error "Failed to load high scores:" w)
  end.

Definition getHighScore (settings : GameSettings) (w : World) : Z * World :=
  let '(scores, w) := getHighScores w in
  let key := getScoreKey settings in
  (or_zero (HighScore.score <$> scores !! key), w).

Definition saveHighScore (settings : GameSettings) (score : Z) (w : World) : bool * World :=
  let '(scores, w) := getHighScores w in
  let key := getScoreKey settings in
  let currentHigh := or_zero (HighScore.score <$> scores !! key) in
  if decide (currentHigh < score) then
    let scores := <[key := {| HighScore.score := score; HighScore.date := isoNow w |}]> scores in
    match localStorage_setItem scores (storage w) with
    | Normal ls => (true, with_storage ls w)
    | Throw _ => (false, console_error "Failed to save high score:" w)
    end
  else (false, w).

(** ** The score store over any stored text

    [getHighScores] is declared to return [HighScores], but [JSON.parse]
    returns whatever the stored text encodes.  This section embeds the same
    three functions over every JSON value.  The definitions above are their
    restriction to a store that is empty, unparsable or holds a [HighScores]
    object, which is all the functions themselves ever write. *)
Module Untyped.

(** The numbers [JSON.parse] returns: a finite number, or an infinity for a
    literal beyond the range of a double. *)
Inductive Num :=
  | Finite (q : Qc)
  | Infinite (negative : bool).

#[local] Set Warnings "-register-all".
(** The values [JSON.parse] returns. *)
Inductive Value :=
  | Null
  | Boolean (b : bool)
  | Number (n : Num)
  | Str (s : string)
  | Array (items : list Value)
  | Object (props : gmap string Value).
#[local] Set Warnings "register-all".

(** The text kept under [HIGH_SCORES_KEY]: the empty string, or a text known
    by what [JSON.parse] makes of it, a [SyntaxError] or a value. *)
Inductive Text :=
  | EmptyText
  | Malformed
  | Json (v : Value).

(** [stored ? ... : ...]: the empty string is falsy. *)
Definition truthy (text : Text) : bool :=
  match text with
  | EmptyText => false
  | _ => true
  end.

Record LocalStorage := {
  getItem_throws : bool;
  setItem_throws : bool;
  item : option Text
}.

(** The part of the world the score store touches. *)
Record World := {
  storage : LocalStorage;
  isoNow : string;
  console : list string
}.

Definition console_error (msg : string) (w : World) : World :=
  {| storage := storage w; isoNow := isoNow w; console := console w ++ [msg] |}.

Definition with_storage (ls : LocalStorage) (w : World) : World :=
  {| storage := ls; isoNow := isoNow w; console := console w |}.

Definition localStorage_getItem (ls : LocalStorage) : Completion (option Text) :=
  if getItem_throws ls then Throw "SecurityError" else Normal (item ls).

Definition localStorage_setItem (text : Text) (ls : LocalStorage)
    : Completion LocalStorage :=
  if setItem_throws ls then Throw "QuotaExceededError"
  else Normal {| getItem_throws := getItem_throws ls;
                 setItem_throws := setItem_throws ls;
                 item := Some text |}.

Definition JSON_parse (text : Text) : Completion Value :=
  match text with
  | EmptyText | Malformed => Throw "SyntaxError"
  | Json v => Normal v
  end.

(** What [JSON.parse] makes of the text that [JSON.stringify] writes for a
    value: the value itself, with [null] for every infinity. *)
Fixpoint reparsed (v : Value) : Value :=
  match v with
  | Number (Infinite _) => Null
  | Array items => Array (reparsed <$> items)
  | Object props => Object (reparsed <$> props)
  | v => v
  end.

Definition JSON_stringify (v : Value) : Text := Json (reparsed v).

(** [v[name]], for a name that is no index, not [length] and the name of no
    built-in property, as the score keys (they contain a dash) and [score]
    are: the own property of an object, [undefined] ([None]) on any other
    value, and a [TypeError] on [null]. *)
Definition get (v : Value) (name : string) : Completion (option Value) :=
  match v with
  | Null => Throw "TypeError"
  | Object props => Normal (props !! name)
  | _ => Normal None
  end.

(** [v?.name], for such a name. *)
Definition optional_get (v : option Value) (name : string) : option Value :=
  match v with
  | Some (Object props) => props !! name
  | _ => None
  end.

(** The falsy values among those of [JSON.parse]. *)
Definition falsy (v : Value) : bool :=
  match v with
  | Null | Boolean false | Str EmptyString => true
  | Number (Finite q) => bool_decide (q = Qc_of_Z 0)
  | _ => false
  end.

(** [v || 0]. *)
Definition or_zero (v : option Value) : Value :=
  match v with
  | Some v => if falsy v then Number (Finite (Qc_of_Z 0)) else v
  | None => Number (Finite (Qc_of_Z 0))
  end.

(** [v[name] = x] for such a name, as far as [JSON.stringify] sees it: an
    object gets the property, an array gets a property that is no element
    and is not written out, and other values throw a [TypeError] (the file
    is an ES module, whose code is strict: assigning a property of a
    boolean, a number or a string throws). *)
Definition set (v : Value) (name : string) (x : Value) : Completion Value :=
  match v with
  | Object props => Normal (Object (<[name := x]> props))
  | Array items => Normal (Array items)
  | _ => Throw "TypeError"
  end.

(** ECMAScript's conversion of a string, an array or an object to a number
    ([None] for [NaN]), which can throw for an object.  It is part of the
    language, not of the repository, and is left open. *)
Class Coercion := {
  ToNumber : Value → Completion (option Num)
}.

Definition less (n : Num) (score : Z) : bool :=
  match n with
  | Finite q => bool_decide (q < Qc_of_Z score)%Qc
  | Infinite negative => negative
  end.

(** [score > v] for a number [score]. *)
Definition greater `{Coercion} (score : Z) (v : Value) : Completion bool :=
  match v with
  | Null => Normal (bool_decide (0 < score))
  | Boolean b => Normal (bool_decide ((if b then 1 else 0) < score))
  | Number n => Normal (less n score)
  | v =>
      match ToNumber v with
      | Throw e => Throw e
      | Normal None => Normal false
      | Normal (Some n) => Normal (less n score)
      end
  end.

Definition getHighScores (w : World) : Value * World :=
  let attempt :=
    match localStorage_getItem (storage w) with
    | Throw e => Throw e
    | Normal None => Normal (Object ∅)
    | Normal (Some stored) =>
        if truthy stored then JSON_parse stored else Normal (Object ∅)
    end in
  match attempt with
  | Normal scores => (scores, w)
  | Throw _ => (Object ∅, console_error "Failed to load high scores:" w)
  end.

(** [getHighScore] has no [try]: the [TypeError] of [scores[key]] on [null]
    reaches the caller. *)
Definition getHighScore (settings : GameSettings) (w : World)
    : Completion Value * World :=
  let '(scores, w) := getHighScores w in
  let key := getScoreKey settings in
  match get scores key with
  | Throw e => (Throw e, w)
  | Normal entry => (Normal (or_zero (optional_get entry "score")), w)
  end.

(** The body of the [try] of [saveHighScore], after [getHighScores]. *)
Definition trySave `{Coercion} (settings : GameSettings) (score : Z)
    (scores : Value) (w : World) : Completion (bool * World) :=
  let key := getScoreKey settings in
  match get scores key with
  | Throw e => Throw e
  | Normal entry =>
      let currentHigh := or_zero (optional_get entry "score") in
      match greater score currentHigh with
      | Throw e => Throw e
      | Normal false => Normal (false, w)
      | Normal true =>
          let record :=
            Object {[ "score" := Number (Finite (Qc_of_Z score));
                      "date" := Str (isoNow w) ]} in
          match set scores key record with
          | Throw e => Throw e
          | Normal scores =>
              match localStorage_setItem (JSON_stringify scores) (storage w) with
              | Throw e => Throw e
              | Normal ls => Normal (true, with_storage ls w)
              end
          end
      end
  end.

Definition saveHighScore `{Coercion} (settings : GameSettings) (score : Z)
    (w : World) : bool * World :=
  let '(scores, w) := getHighScores w in
  match trySave settings score scores w with
  | Normal result => result
  | Throw _ => (false, console_error "Failed to save high score:" w)
  end.

(** The store cannot be read: [getItem] throws, or the text is not JSON. *)
Definition unreadable (ls : LocalStorage) : Prop :=
  getItem_throws ls = true ∨ item ls = Some Malformed.

(** What [getHighScores] returns over a store that can be read. *)
Definition parsed (ls : LocalStorage) : Value :=
  match item ls with
  | Some (Json v) => v
  | _ => Object ∅
  end.

(** A boolean, a number or a string. *)
Definition primitive (v : Value) : Prop :=
  match v with
  | Boolean _ | Number _ | Str _ => True
  | _ => False
  end.

End Untyped.

(** The record that [saveHighScore] writes, as a JSON value. *)
Definition untypedRecord (h : HighScore.t) : Untyped.Value :=
  Untyped.Object
    {[ "score" := Untyped.Number (Untyped.Finite (Qc_of_Z (HighScore.score h)));
       "date" := Untyped.Str (HighScore.date h) ]}.

Definition untypedText (text : StoredText) : Untyped.Text :=
  match text with
  | EmptyText => Untyped.EmptyText
  | Malformed => Untyped.Malformed
  | Encoded scores => Untyped.Json (Untyped.Object (untypedRecord <$> scores))
  end.

(** A world of the sections above, as the untyped store sees it. *)
Definition untyped (w : World) : Untyped.World :=
  {| Untyped.storage :=
       {| Untyped.getItem_throws := getItem_throws (storage w);
          Untyped.setItem_throws := setItem_throws (storage w);
          Untyped.item := untypedText <$> item (storage w) |};
     Untyped.isoNow := isoNow w;
     Untyped.console := console w |}.

(** ** The problem generator, [src/utils/mathUtils.ts]

    The module is not among the sources.  The engine calls two of its
    functions; both sample with [Math.random], so they take the pending
    outcomes and return the ones they left. *)
Class MathUtils := {
  generateProblem : OperationType → option Z → Rng → MathProblem * Rng;
  generateWrongAnswers : Z → nat → Rng → list Z * Rng
}.

(** Modelled from the spec: what the engine needs of the contract of
    [generateWrongAnswers] ("always returns exactly [count] values, pairwise
    distinct, and distinct from correctAnswer"). *)
Class MathUtilsContract `{MathUtils} : Prop := {
  wrong_count : ∀ correct count rng,
    length (generateWrongAnswers correct count rng).1 = count;
  wrong_not_correct : ∀ correct count rng,
    correct ∉ (generateWrongAnswers correct count rng).1
}.

(** ** The engine, [src/hooks/useGameEngine.ts] *)

Definition GAME_WIDTH : Qc := Qc_of_Z 800.
Definition GAME_HEIGHT : Qc := Qc_of_Z 600.
Definition PLAYER_SIZE : Qc := Qc_of_Z 60.
Definition ANSWER_SIZE : Qc := Qc_of_Z 50.
Definition BULLET_SPEED : Qc := Qc_of_Z 8.

Definition createInitialState : GameState :=
  {| status := menu;
     settings := None;
     currentProblem := None;
     fallingAnswers := [];
     bullets := [];
     playerX := (GAME_WIDTH / Qc_of_Z 2)%Qc;
     score := 0;
     lives := 3;
     level := 1;
     showingAnswer := false;
     timeRemaining := Qc_of_Z 0 |}.

(** [[a[i], a[j]] = [a[j], a[i]]].  The shuffle only calls it with both
    indices inside the array (see [shuffle_index]). *)
Definition swap (i j : nat) (a : list Z) : list Z :=
  match a !! j, a !! i with
  | Some aj, Some ai => <[j := ai]> (<[i := aj]> a)
  | _, _ => a
  end.

(** [Math.floor(Math.random() * (i + 1))] for the outcome [r]. *)
Definition shuffle_index (r : Qc) (i : nat) : nat :=
  Z.to_nat (Math.floor (r * Qc_of_Z (Z.of_nat i + 1))%Qc).

(** The loop [for (let i = ...; i > 0; i--)], entered at [i]. *)
Fixpoint shuffle_from (i : nat) (allAnswers : list Z) (rng : Rng) : list Z * Rng :=
  match i with
  | O => (allAnswers, rng)
  | S i' =>
      let '(r, rng) := Math_random rng in
      let j := shuffle_index r i in
      shuffle_from i' (swap i j allAnswers) rng
  end.

Definition shuffle (allAnswers : list Z) (rng : Rng) : list Z * Rng :=
  shuffle_from (length allAnswers - 1) allAnswers rng.

Definition answerId (now : Z) (index : nat) : string :=
  "answer-" +:+ pretty now +:+ "-" +:+ pretty index.

(** [allAnswers.map((value, index) => ...)], from position [index] on. *)
Fixpoint placeAnswers (spacing : Qc) (correct : Z) (index : nat) (values : list Z)
    (w : World) : list FallingAnswer.t * World :=
  match values with
  | [] => ([], w)
  | value :: values =>
      let '(now, w) := Date_now w in
      let answer :=
        {| FallingAnswer.id := answerId now index;
           FallingAnswer.value := value;
           FallingAnswer.x := (spacing * Qc_of_Z (Z.of_nat index + 1))%Qc;
           FallingAnswer.y := Qc_of_Z 100;
           FallingAnswer.speed := Qc_of_Z 0;
           FallingAnswer.isCorrect := bool_decide (value = correct) |} in
      let '(answers, w) := placeAnswers spacing correct (S index) values w in
      (answer :: answers, w)
  end.

Section Engine.
Context `{MathUtils}.

Definition generateNewProblem (settings : GameSettings) (w : World)
    : (MathProblem * list FallingAnswer.t) * World :=
  let '(problem, rng) :=
    generateProblem (operation settings) (specificNumber settings) (random w) in
  let '(wrongAnswers, rng) := generateWrongAnswers (correctAnswer problem) 3 rng in
  let allAnswers := correctAnswer problem :: wrongAnswers in
  let '(allAnswers, rng) := shuffle allAnswers rng in
  let w := with_random rng w in
  let spacing := (GAME_WIDTH / Qc_of_Z (Z.of_nat (length allAnswers) + 1))%Qc in
  let '(answers, w) := placeAnswers spacing (correctAnswer problem) 0 allAnswers w in
  ((problem, answers), w).

Definition findAnswer (answerId : string) (answers : list FallingAnswer.t)
    : option FallingAnswer.t :=
  List.find (λ a, bool_decide (FallingAnswer.id a = answerId)) answers.

Definition gameReducer (state : GameState) (action : GameAction) (w : World)
    : GameState * World :=
  match action with
  | START_GAME settings' =>
      let '((problem, answers), w) := generateNewProblem settings' w in
      ({| status := playing;
          settings := Some settings';
          currentProblem := Some problem;
          fallingAnswers := answers;
          bullets := bullets createInitialState;
          playerX := playerX createInitialState;
          score := 0;
          lives := 3;
          level := 1;
          showingAnswer := showingAnswer createInitialState;
          timeRemaining := Qc_of_Z (practiceDuration settings') |}, w)

  | MOVE_PLAYER x =>
      ({| status := status state;
          settings := settings state;
          currentProblem := currentProblem state;
          fallingAnswers := fallingAnswers state;
          bullets := bullets state;
          playerX :=
            Math.max (PLAYER_SIZE / Qc_of_Z 2)
              (Math.min (GAME_WIDTH - PLAYER_SIZE / Qc_of_Z 2) x)%Qc;
          score := score state;
          lives := lives state;
          level := level state;
          showingAnswer := showingAnswer state;
          timeRemaining := timeRemaining state |}, w)

  | SHOOT =>
      if decide (status state ≠ playing) then (state, w) else
      let '(now, w) := Date_now w in
      let bullet :=
        {| Bullet.id := "bullet-" +:+ pretty now;
           Bullet.x := playerX state;
           Bullet.y := (GAME_HEIGHT - PLAYER_SIZE - Qc_of_Z 10)%Qc;
           Bullet.speed := BULLET_SPEED |} in
      ({| status := status state;
          settings := settings state;
          currentProblem := currentProblem state;
          fallingAnswers := fallingAnswers state;
          bullets := bullets state ++ [bullet];
          playerX := playerX state;
          score := score state;
          lives := lives state;
          level := level state;
          showingAnswer := showingAnswer state;
          timeRemaining := timeRemaining state |}, w)

  | UPDATE_BULLETS =>
      let updatedBullets :=
        filter (λ bullet, 0 < Bullet.y bullet)%Qc
          (map (λ bullet,
                  {| Bullet.id := Bullet.id bullet;
                     Bullet.x := Bullet.x bullet;
                     Bullet.y := (Bullet.y bullet - BULLET_SPEED)%Qc;
                     Bullet.speed := Bullet.speed bullet |})
               (bullets state)) in
      ({| status := status state;
          settings := settings state;
          currentProblem := currentProblem state;
          fallingAnswers := fallingAnswers state;
          bullets := updatedBullets;
          playerX := playerX state;
          score := score state;
          lives := lives state;
          level := level state;
          showingAnswer := showingAnswer state;
          timeRemaining := timeRemaining state |}, w)

  | HIT_ANSWER answerId =>
      match findAnswer answerId (fallingAnswers state) with
      | None => (state, w)
      | Some answer =>
          if FallingAnswer.isCorrect answer then
            let newScore := score state + 10 in
            let newLevel := Math.floor (Qc_of_Z newScore / Qc_of_Z 50)%Qc + 1 in
            match settings state with
            | None => (state, w)
            | Some settings' =>
                let '((problem, answers), w) := generateNewProblem settings' w in
                ({| status := status state;
                    settings := settings state;
                    currentProblem := Some problem;
                    fallingAnswers := answers;
                    bullets := [];
                    playerX := playerX state;
                    score := newScore;
                    lives := lives state;
                    level := newLevel;
                    showingAnswer := showingAnswer state;
                    timeRemaining := timeRemaining state |}, w)
            end
          else
            let newLives := lives state - 1 in
            if decide (newLives ≤ 0) then
              let w :=
                match settings state with
                | Some settings' => (saveHighScore settings' (score state) w).2
                | None => w
                end in
              ({| status := gameOver;
                  settings := settings state;
                  currentProblem := currentProblem state;
                  fallingAnswers := fallingAnswers state;
                  bullets := bullets state;
                  playerX := playerX state;
                  score := score state;
                  lives := 0;
                  level := level state;
                  showingAnswer := true;
                  timeRemaining := timeRemaining state |}, w)
            else
              ({| status := status state;
                  settings := settings state;
                  currentProblem := currentProblem state;
                  fallingAnswers := fallingAnswers state;
                  bullets := [];
                  playerX := playerX state;
                  score := score state;
                  lives := newLives;
                  level := level state;
                  showingAnswer := true;
                  timeRemaining := timeRemaining state |}, w)
      end

  | SHOW_CORRECT_ANSWER =>
      ({| status := status state;
          settings := settings state;
          currentProblem := currentProblem state;
          fallingAnswers := fallingAnswers state;
          bullets := bullets state;
          playerX := playerX state;
          score := score state;
          lives := lives state;
          level := level state;
          showingAnswer := true;
          timeRemaining := timeRemaining state |}, w)

  | NEXT_PROBLEM =>
      match settings state with
      | None => (state, w)
      | Some settings' =>
          let '((problem, answers), w) := generateNewProblem settings' w in
          ({| status := status state;
              settings := settings state;
              currentProblem := Some problem;
              fallingAnswers := answers;
              bullets := [];
              playerX := playerX state;
              score := score state;
              lives := lives state;
              level := level state;
              showingAnswer := false;
              timeRemaining := timeRemaining state |}, w)
      end

  | MISS_ANSWER answerId =>
      ({| status := status state;
          settings := settings state;
          currentProblem := currentProblem state;
          fallingAnswers :=
            filter (λ a, FallingAnswer.id a ≠ answerId) (fallingAnswers state);
          bullets := bullets state;
          playerX := playerX state;
          score := score state;
          lives := lives state;
          level := level state;
          showingAnswer := showingAnswer state;
          timeRemaining := timeRemaining state |}, w)

  | UPDATE_GAME deltaTime =>
      if decide (status state ≠ playing) then (state, w) else (state, w)

  | UPDATE_TIMER deltaTime =>
      if decide (status state ≠ playing) then (state, w) else
      let newTimeRemaining :=
        Math.max (Qc_of_Z 0) (timeRemaining state - deltaTime)%Qc in
      if decide (newTimeRemaining = Qc_of_Z 0 ∧ (Qc_of_Z 0 < timeRemaining state)%Qc) then
        let w :=
          match settings state with
          | Some settings' => (saveHighScore settings' (score state) w).2
          | None => w
          end in
        ({| status := gameOver;
            settings := settings state;
            currentProblem := currentProblem state;
            fallingAnswers := fallingAnswers state;
            bullets := bullets state;
            playerX := playerX state;
            score := score state;
            lives := lives state;
            level := level state;
            showingAnswer := showingAnswer state;
            timeRemaining := Qc_of_Z 0 |}, w)
      else
        ({| status := status state;
            settings := settings state;
            currentProblem := currentProblem state;
            fallingAnswers := fallingAnswers state;
            bullets := bullets state;
            playerX := playerX state;
            score := score state;
            lives := lives state;
            level := level state;
            showingAnswer := showingAnswer state;
            timeRemaining := newTimeRemaining |}, w)

  | GAME_OVER =>
      ({| status := gameOver;
          settings := settings state;
          currentProblem := currentProblem state;
          fallingAnswers := fallingAnswers state;
          bullets := bullets state;
          playerX := playerX state;
          score := score state;
          lives := lives state;
          level := level state;
          showingAnswer := showingAnswer state;
          timeRemaining := timeRemaining state |}, w)

  | RETURN_TO_MENU => (createInitialState, w)
  end.

End Engine.

(** [dispatch]ing a list of actions in order, each reducer call seeing the
    state and the world left by the previous one. *)
Fixpoint dispatchAll `{MathUtils} (state : GameState) (actions : list GameAction)
    (w : World) : GameState * World :=
  match actions with
  | [] => (state, w)
  | action :: actions =>
      let '(state, w) := gameReducer state action w in
      dispatchAll state actions w
  end.

(** ** Concrete inputs

    A small problem generator that meets [MathUtilsContract], and a world,
    on which the engine can be run. *)

Definition drawQ (n : Z) (d : positive)
    (range : bool_decide (0 ≤ Q2Qc (n # d) ∧ Q2Qc (n # d) < 1)%Qc) : Draw :=
  {| draw := Q2Qc (n # d); draw_range := range |}.

Definition draw_half : Draw := drawQ 1 2 I.
Definition draw_high : Draw := drawQ 99 100 I.

(** An integer in [0, bound), drawn as [Math.floor(Math.random() * bound)]. *)
Definition randomInt (bound : Z) (rng : Rng) : Z * Rng :=
  let '(r, rng) := Math_random rng in
  (Math.floor (r * Qc_of_Z bound)%Qc, rng).

(** A generator in the manner of the spec: operands from 0..10 (0..12 for
    multiplication and division), the first one pinned to the fixed operand
    if there is one; subtraction puts the larger operand first; division
    takes a divisor of at least 1 and multiplies it by the quotient. *)
Definition sampleGenerateProblem (op : OperationType) (fixed : option Z) (rng : Rng)
    : MathProblem * Rng :=
  let range := match op with multiplication | division => 12 | _ => 10 end in
  let '(drawn, rng) := randomInt (range + 1) rng in
  let a := default drawn fixed in
  let '(b, rng) := randomInt (range + 1) rng in
  let problem :=
    match op with
    | addition =>
        {| operandA := a; operandB := b; problemOperation := op;
           correctAnswer := a + b |}
    | subtraction =>
        {| operandA := Z.max a b; operandB := Z.min a b; problemOperation := op;
           correctAnswer := Z.max a b - Z.min a b |}
    | multiplication =>
        {| operandA := a; operandB := b; problemOperation := op;
           correctAnswer := a * b |}
    | division =>
        {| operandA := Z.max 1 a * b; operandB := Z.max 1 a; problemOperation := op;
           correctAnswer := b |}
    end in
  (problem, rng).

(** The [count] integers that follow [correct]. *)
Definition sampleGenerateWrongAnswers (correct : Z) (count : nat) (rng : Rng)
    : list Z * Rng :=
  (map (λ k, correct + Z.of_nat k + 1) (seq 0 count), rng).

Definition sampleMathUtils : MathUtils :=
  {| generateProblem := sampleGenerateProblem;
     generateWrongAnswers := sampleGenerateWrongAnswers |}.

Definition emptyStorage : LocalStorage :=
  {| getItem_throws := false; setItem_throws := false; item := None |}.

Definition sampleWorld : World :=
  {| random := λ n, if Nat.even n then draw_half else draw_high;
     clock := λ n, 1700000000000 + Z.of_nat n;
     isoNow := "2023-11-14T22:13:20.000Z";
     storage := emptyStorage;
     console := [] |}.

Definition sampleSettings : GameSettings :=
  {| operation := addition; practiceMode := all_numbers;
     specificNumber := None; practiceDuration := 60 |}.

(** The game right after [START_GAME] in [sampleWorld]: the candidates are
    15 (correct), 16, 18 and 17, with ids [answer-1700000000000-0] to
    [answer-1700000000003-3]. *)
Definition sampleGame : GameState :=
  Eval vm_compute in
    (@gameReducer sampleMathUtils createInitialState (START_GAME sampleSettings)
       sampleWorld).1.

(** ** States and stores named in the properties *)

(** The state with the ship moved to [x], clamped to the play area. *)
Definition movedTo (state : GameState) (x : Qc) : GameState :=
  {| status := status state;
     settings := settings state;
     currentProblem := currentProblem state;
     fallingAnswers := fallingAnswers state;
     bullets := bullets state;
     playerX := clamp x (Qc_of_Z 30) (Qc_of_Z 770);
     score := score state;
     lives := lives state;
     level := level state;
     showingAnswer := showingAnswer state;
     timeRemaining := timeRemaining state |}.

(** The state after a wrong hit that leaves lives: one life less, the
    answer shown, the bullets gone. *)
Definition wounded (state : GameState) : GameState :=
  {| status := status state;
     settings := settings state;
     currentProblem := currentProblem state;
     fallingAnswers := fallingAnswers state;
     bullets := [];
     playerX := playerX state;
     score := score state;
     lives := lives state - 1;
     level := level state;
     showingAnswer := true;
     timeRemaining := timeRemaining state |}.

(** The state after the wrong hit that takes the last life. *)
Definition defeated (state : GameState) : GameState :=
  {| status := gameOver;
     settings := settings state;
     currentProblem := currentProblem state;
     fallingAnswers := fallingAnswers state;
     bullets := bullets state;
     playerX := playerX state;
     score := score state;
     lives := 0;
     level := level state;
     showingAnswer := true;
     timeRemaining := timeRemaining state |}.

(** The world after the engine has offered the score of [state] to the
    store, which it does only when the state has settings. *)
Definition scoreOffered (state : GameState) (w : World) : World :=
  match settings state with
  | Some settings' => (saveHighScore settings' (score state) w).2
  | None => w
  end.

(** The store cannot be read: [getItem] throws, or the text does not parse. *)
Definition unreadable (ls : LocalStorage) : Prop :=
  getItem_throws ls = true ∨ item ls = Some Malformed.

(** The store cannot be written: [setItem] throws. *)
Definition unwritable (ls : LocalStorage) : Prop :=
  setItem_throws ls = true.

(** The scores that a readable store holds. *)
Definition storedScores (ls : LocalStorage) : gmap string HighScore.t :=
  match item ls with
  | Some (Encoded scores) => scores
  | _ => ∅
  end.

(** A world whose store holds text that is not JSON. *)
Definition corruptWorld : World :=
  with_storage
    {| getItem_throws := false; setItem_throws := false; item := Some Malformed |}
    sampleWorld.

(** A world whose store holds a best of 50 for [sampleSettings] and
    refuses writes. *)
Definition fullWorld : World :=
  with_storage
    {| getItem_throws := false; setItem_throws := true;
       item := Some (Encoded {[ getScoreKey sampleSettings :=
                 {| HighScore.score := 50;
                    HighScore.date := "2023-01-01T00:00:00.000Z" |} ]}) |}
    sampleWorld.

(** The sample game on its last life, with a score of 20. *)
Definition lastLifeGame : GameState :=
  {| status := status sampleGame;
     settings := settings sampleGame;
     currentProblem := currentProblem sampleGame;
     fallingAnswers := fallingAnswers sampleGame;
     bullets := bullets sampleGame;
     playerX := playerX sampleGame;
     score := 20;
     lives := 1;
     level := 1;
     showingAnswer := false;
     timeRemaining := timeRemaining sampleGame |}.

(** The id of the wrong answer 16 of the sample game. *)
Definition wrongId : string := "answer-1700000000001-1".

(** The id of the correct answer 15 of the sample game. *)
Definition correctId : string := "answer-1700000000000-0".

(** A candidate set for [problem]: four answers, one of them correct, the
    answer at [index] placed at [GAME_WIDTH / 5 * (index + 1)] on the line
    [y = 100], and correct exactly when its value is the correct answer. *)
Definition candidateSet (problem : MathProblem) (answers : list FallingAnswer.t) : Prop :=
  length answers = 4%nat
  ∧ length (filter (λ a, FallingAnswer.isCorrect a = true) answers) = 1%nat
  ∧ ∀ (index : nat) (a : FallingAnswer.t),
      answers !! index = Some a →
      FallingAnswer.x a = (GAME_WIDTH / Qc_of_Z 5 * Qc_of_Z (Z.of_nat index + 1))%Qc
      ∧ FallingAnswer.y a = Qc_of_Z 100
      ∧ FallingAnswer.isCorrect a
        = bool_decide (FallingAnswer.value a = correctAnswer problem).

(** The state shows a problem together with a candidate set for it. *)
Definition hasCandidateSet (state : GameState) : Prop :=
  ∃ problem : MathProblem,
    currentProblem state = Some problem ∧ candidateSet problem (fallingAnswers state).



(** The states the engine can be in: the initial state of [useReducer] and
    whatever a dispatch makes of a reachable state, in any world. *)
Inductive reachable `{MathUtils} : GameState → Prop :=
  | reachable_initial : reachable createInitialState
  | reachable_dispatch (state : GameState) (action : GameAction) (w : World) :
      reachable state → reachable (gameReducer state action w).1.

(** No character of the string is a dash. *)
Fixpoint dashless (s : string) : bool :=
  match s with
  | EmptyString => true
  | String c s => if Ascii.eqb c "-"%char then false else dashless s
  end.


(** [sampleWorld] five seconds later. *)
Definition laterWorld : World :=
  {| random := random sampleWorld;
     clock := λ n, 1700000005000 + Z.of_nat n;
     isoNow := "2023-11-14T22:13:25.000Z";
     storage := storage sampleWorld;
     console := console sampleWorld |}.

(** ** The frame loop and the reveal timer of [useGameEngine] *)

(** [Math.pow(v, 2)]. *)
Definition Math_pow2 (v : Qc) : Qc := (v * v)%Qc.

(** [distance < ANSWER_SIZE / 2], for the [distance] that [gameLoop] computes
    as the square root of [Math.pow(dx, 2) + Math.pow(dy, 2)].  A square root
    lies below the positive radius exactly when its argument lies below the
    square of the radius, and the squares are what is compared here: the
    square root of a rational need not be one. *)
Definition withinHitRadius (bullet : Bullet.t) (answer : FallingAnswer.t) : Prop :=
  (Math_pow2 (Bullet.x bullet - FallingAnswer.x answer)
   + Math_pow2 (Bullet.y bullet - FallingAnswer.y answer)
   < (ANSWER_SIZE / Qc_of_Z 2) * (ANSWER_SIZE / Qc_of_Z 2))%Qc.

Global Instance withinHitRadius_dec (bullet : Bullet.t) (answer : FallingAnswer.t) :
  Decision (withinHitRadius bullet answer).
Proof. unfold withinHitRadius. apply _. Defined.

(** The inner loop [for (const answer of ...)]: the id of the first answer
    that is not in [hitAnswers] and is within the radius of the bullet. *)
Fixpoint firstHit (bullet : Bullet.t) (answers : list FallingAnswer.t)
    (hitAnswers : gset string) : option string :=
  match answers with
  | [] => None
  | answer :: answers =>
      if decide (FallingAnswer.id answer ∈ hitAnswers) then
        firstHit bullet answers hitAnswers
      else if decide (withinHitRadius bullet answer) then
        Some (FallingAnswer.id answer)
      else firstHit bullet answers hitAnswers
  end.

(** The outer loop [for (const bullet of ...)]: the actions it dispatches,
    in order. *)
Fixpoint checkCollisions (bullets : list Bullet.t) (answers : list FallingAnswer.t)
    (hitAnswers : gset string) : list GameAction :=
  match bullets with
  | [] => []
  | bullet :: bullets =>
      match firstHit bullet answers hitAnswers with
      | Some answerId =>
          HIT_ANSWER answerId
            :: checkCollisions bullets answers ({[answerId]} ∪ hitAnswers)
      | None => checkCollisions bullets answers hitAnswers
      end
  end.

(** What one run of [gameLoop] does. *)
Record Frame := {
  dispatched : list GameAction;
  lastTime : Z;
  rescheduled : bool
}.

(** [gameLoop], run with [stateRef.current = snapshot] and
    [lastTimeRef.current = lastTime']: the actions it dispatches, the new
    [lastTimeRef.current], and whether it requests another frame. *)
Definition gameLoop (snapshot : GameState) (lastTime' : Z) (w : World) : Frame * World :=
  let '(now, w) := Date_now w in
  let lastTime' := if decide (lastTime' = 0) then now else lastTime' in
  let deltaTime := (Qc_of_Z (now - lastTime') / Q2Qc (1667 # 100))%Qc in
  ({| dispatched :=
        [UPDATE_TIMER (deltaTime / Qc_of_Z 60)%Qc; UPDATE_GAME deltaTime; UPDATE_BULLETS]
        ++ checkCollisions (bullets snapshot) (fallingAnswers snapshot) ∅;
      lastTime := now;
      rescheduled := bool_decide (status snapshot = playing) |}, w).

(** The condition under which the reveal effect arms its two-second timer,
    which dispatches NEXT_PROBLEM. *)
Definition revealArmed (state : GameState) : bool :=
  showingAnswer state && bool_decide (status state ≠ gameOver).

(** ** The game screen, [GameCanvas] *)

(** [handleKeyDown]: the actions that the key makes [onPlayerMove] and
    [onShoot] dispatch, for the state the component was rendered with. *)
Definition handleKeyDown (state : GameState) (key : string) : list GameAction :=
  if decide (status state ≠ playing) then [] else
  if decide (key = "ArrowLeft") then
    [MOVE_PLAYER (Math.max (PLAYER_SIZE / Qc_of_Z 2) (playerX state - Qc_of_Z 20))%Qc]
  else if decide (key = "ArrowRight") then
    [MOVE_PLAYER
       (Math.min (GAME_WIDTH - PLAYER_SIZE / Qc_of_Z 2) (playerX state + Qc_of_Z 20))%Qc]
  else if decide (key = " " ∨ key = "Space") then [SHOOT]
  else [].

(** The two on-screen arrow buttons. *)
Definition leftButton (state : GameState) : GameAction :=
  MOVE_PLAYER (playerX state - Qc_of_Z 30)%Qc.
Definition rightButton (state : GameState) : GameAction :=
  MOVE_PLAYER (playerX state + Qc_of_Z 30)%Qc.

(** [isNewHighScore] of the game-over screen. *)
Definition isNewHighScore (state : GameState) (w : World) : bool :=
  let highScore :=
    match settings state with
    | Some settings' => (getHighScore settings' w).1
    | None => 0
    end in
  bool_decide (0 < score state) && bool_decide (score state = highScore).

(** ** Display of a score key, [formatScoreKey] *)

(** [key.split("-")]. *)
Fixpoint split_dash (key : string) : list string :=
  match key with
  | EmptyString => [EmptyString]
  | String c key =>
      if Ascii.eqb c "-"%char then EmptyString :: split_dash key
      else match split_dash key with
           | part :: parts => String c part :: parts
           | [] => [String c EmptyString]
           end
  end.

(** [toUpperCase] on one character of ASCII text. *)
Definition toUpperCase (c : ascii) : ascii :=
  let n := nat_of_ascii c in
  if decide (97 ≤ n ≤ 122)%nat then ascii_of_nat (n - 32) else c.

(** [s.charAt(0).toUpperCase() + s.slice(1)], for ASCII text. *)
Definition capitalize (s : string) : string :=
  match s with
  | EmptyString => EmptyString
  | String c s => String (toUpperCase c) s
  end.

Definition formatScoreKey (key : string) : string :=
  let parts := split_dash key in
  let operation := capitalize (default EmptyString (parts !! 0%nat)) in
  let mode := parts !! 1%nat in
  let duration := List.last parts EmptyString in
  match mode, parts !! 2%nat with
  | Some mode, Some number =>
      if decide (mode = "specific" ∧ number ≠ EmptyString) then
        operation +:+ " - Practice " +:+ number +:+ " (" +:+ duration +:+ ")"
      else operation +:+ " - All Numbers (" +:+ duration +:+ ")"
  | _, _ => operation +:+ " - All Numbers (" +:+ duration +:+ ")"
  end.

(** ** The menu, [MainMenu] *)

(** The state of the component: [operation], [practiceMode],
    [specificNumber] (each [null] until chosen) and [practiceDuration]. *)
Module Menu.
Record t := {
  operation : option OperationType;
  practiceMode : option PracticeMode;
  specificNumber : option Z;
  practiceDuration : Z
}.
End Menu.

Definition initialMenu : Menu.t :=
  {| Menu.operation := None; Menu.practiceMode := None;
     Menu.specificNumber := None; Menu.practiceDuration := 60 |}.

(** [getNumberRange]: [Array.from({ length: max + 1 }, (_, i) => i)]. *)
Definition getNumberRange (op : OperationType) : list Z :=
  let max := match op with multiplication | division => 12%nat | _ => 10%nat end in
  Z.of_nat <$> seq 0 (max + 1).

(** [handleStartGame]: the settings passed to [onStartGame], or [None] when
    the handler returns without calling it. *)
Definition handleStartGame (m : Menu.t) : option GameSettings :=
  match Menu.operation m with
  | None => None
  | Some operation' =>
      match Menu.practiceMode m, Menu.specificNumber m with
      | Some specific_number, None => None
      | practiceMode', specificNumber' =>
          Some {| operation := operation';
                  practiceMode := default all_numbers practiceMode';
                  specificNumber :=
                    match practiceMode' with
                    | Some specific_number => specificNumber'
                    | _ => None
                    end;
                  practiceDuration := Menu.practiceDuration m |}
      end
  end.

(** The buttons of the menu. *)
Inductive MenuButton :=
  | OperationButton (op : OperationType)
  | PracticeModeButton (mode : PracticeMode)
  | NumberButton (num : Z)
  | DurationButton30
  | DurationButton60
  | DurationButton90
  | StartButton.

(** Whether the menu renders the button. *)
Definition rendered (m : Menu.t) (button : MenuButton) : Prop :=
  match button with
  | OperationButton _ => True
  | PracticeModeButton _ => is_Some (Menu.operation m)
  | NumberButton num =>
      Menu.practiceMode m = Some specific_number
      ∧ ∃ op, Menu.operation m = Some op ∧ num ∈ getNumberRange op
  | DurationButton30 | DurationButton60 | DurationButton90 =>
      is_Some (Menu.operation m) ∧ is_Some (Menu.practiceMode m)
  | StartButton =>
      is_Some (Menu.operation m)
      ∧ (Menu.practiceMode m = Some all_numbers
         ∨ (Menu.practiceMode m = Some specific_number
            ∧ is_Some (Menu.specificNumber m)))
  end.

(** The [onClick] handlers, as far as they change the state of the menu. *)
Definition click (m : Menu.t) (button : MenuButton) : Menu.t :=
  match button with
  | OperationButton op =>
      {| Menu.operation := Some op; Menu.practiceMode := None;
         Menu.specificNumber := Menu.specificNumber m;
         Menu.practiceDuration := Menu.practiceDuration m |}
  | PracticeModeButton mode =>
      {| Menu.operation := Menu.operation m; Menu.practiceMode := Some mode;
         Menu.specificNumber := Menu.specificNumber m;
         Menu.practiceDuration := Menu.practiceDuration m |}
  | NumberButton num =>
      {| Menu.operation := Menu.operation m; Menu.practiceMode := Menu.practiceMode m;
         Menu.specificNumber := Some num;
         Menu.practiceDuration := Menu.practiceDuration m |}
  | DurationButton30 =>
      {| Menu.operation := Menu.operation m; Menu.practiceMode := Menu.practiceMode m;
         Menu.specificNumber := Menu.specificNumber m; Menu.practiceDuration := 30 |}
  | DurationButton60 =>
      {| Menu.operation := Menu.operation m; Menu.practiceMode := Menu.practiceMode m;
         Menu.specificNumber := Menu.specificNumber m; Menu.practiceDuration := 60 |}
  | DurationButton90 =>
      {| Menu.operation := Menu.operation m; Menu.practiceMode := Menu.practiceMode m;
         Menu.specificNumber := Menu.specificNumber m; Menu.practiceDuration := 90 |}
  | StartButton => m
  end.

(** The states of the menu that clicks on rendered buttons lead to. *)
Inductive menuReachable : Menu.t → Prop :=
  | menuReachable_initial : menuReachable initialMenu
  | menuReachable_click (m : Menu.t) (button : MenuButton) :
      menuReachable m → rendered m button → menuReachable (click m button).

(** ** The shape of the states of a game *)

(** A bullet as SHOOT makes them and UPDATE_BULLETS moves them: above the
    ship, within the span the ship moves in, with the speed of all bullets. *)
Definition bulletInPlay (bullet : Bullet.t) : Prop :=
  (Qc_of_Z 30 ≤ Bullet.x bullet ≤ Qc_of_Z 770)%Qc
  ∧ (Bullet.y bullet ≤ Qc_of_Z 530)%Qc
  ∧ Bullet.speed bullet = Qc_of_Z 8.

(** The state as it is before any game has been started. *)
Definition blank (state : GameState) : Prop :=
  status state ≠ playing
  ∧ currentProblem state = None
  ∧ fallingAnswers state = []
  ∧ bullets state = []
  ∧ score state = 0
  ∧ lives state = 3
  ∧ level state = 1
  ∧ timeRemaining state = Qc_of_Z 0.

(** What the reducer keeps true of the state. *)
Definition wellFormed (state : GameState) : Prop :=
  (Qc_of_Z 30 ≤ playerX state ≤ Qc_of_Z 770)%Qc
  ∧ 0 ≤ lives state ≤ 3
  ∧ (lives state = 0 → status state = gameOver)
  ∧ level state = score state / 50 + 1
  ∧ Forall bulletInPlay (bullets state)
  ∧ (settings state = None → blank state)
  ∧ (is_Some (settings state) → is_Some (currentProblem state)).

(** ** More states named in the properties *)

(** The state after the countdown has run out. *)
Definition timedOut (state : GameState) : GameState :=
  {| status := gameOver;
     settings := settings state;
     currentProblem := currentProblem state;
     fallingAnswers := fallingAnswers state;
     bullets := bullets state;
     playerX := playerX state;
     score := score state;
     lives := lives state;
     level := level state;
     showingAnswer := showingAnswer state;
     timeRemaining := Qc_of_Z 0 |}.

(** The state with another time left. *)
Definition withTimeRemaining (t : Qc) (state : GameState) : GameState :=
  {| status := status state;
     settings := settings state;
     currentProblem := currentProblem state;
     fallingAnswers := fallingAnswers state;
     bullets := bullets state;
     playerX := playerX state;
     score := score state;
     lives := lives state;
     level := level state;
     showingAnswer := showingAnswer state;
     timeRemaining := t |}.

(** The state with other bullets. *)
Definition withBullets (bullets' : list Bullet.t) (state : GameState) : GameState :=
  {| status := status state;
     settings := settings state;
     currentProblem := currentProblem state;
     fallingAnswers := fallingAnswers state;
     bullets := bullets';
     playerX := playerX state;
     score := score state;
     lives := lives state;
     level := level state;
     showingAnswer := showingAnswer state;
     timeRemaining := timeRemaining state |}.

(** The state with other answers. *)
Definition withAnswers (answers : list FallingAnswer.t) (state : GameState) : GameState :=
  {| status := status state;
     settings := settings state;
     currentProblem := currentProblem state;
     fallingAnswers := answers;
     bullets := bullets state;
     playerX := playerX state;
     score := score state;
     lives := lives state;
     level := level state;
     showingAnswer := showingAnswer state;
     timeRemaining := timeRemaining state |}.

(** The bullet moved up by [n] times the bullet speed. *)
Definition raised (n : nat) (bullet : Bullet.t) : Bullet.t :=
  {| Bullet.id := Bullet.id bullet;
     Bullet.x := Bullet.x bullet;
     Bullet.y := (Bullet.y bullet - Qc_of_Z (Z.of_nat n) * BULLET_SPEED)%Qc;
     Bullet.speed := Bullet.speed bullet |}.

(** The number that the score key of the settings names, if it names one. *)
Definition scoreSlot (settings' : GameSettings) : option Z :=
  match practiceMode settings', specificNumber settings' with
  | specific_number, Some n => Some n
  | _, _ => None
  end.


(** Settings whose duration and practised number are not negative, as all
    settings from the menu are. *)
Definition nonNegative (settings' : GameSettings) : Prop :=
  0 ≤ practiceDuration settings'
  ∧ ∀ n : Z, scoreSlot settings' = Some n → 0 ≤ n.

(** A world whose store works and holds a best of 20 for [sampleSettings],
    the score of [lastLifeGame]. *)
Definition tieWorld : World :=
  with_storage
    {| getItem_throws := false; setItem_throws := false;
       item := Some (Encoded {[ getScoreKey sampleSettings :=
                 {| HighScore.score := 20;
                    HighScore.date := "2023-01-01T00:00:00.000Z" |} ]}) |}
    sampleWorld.

(** The menu after choosing multiplication, the practice of a specific
    number, and the number 12. *)
Definition sampleMenu : Menu.t :=
  click (click (click initialMenu (OperationButton multiplication))
           (PracticeModeButton specific_number))
    (NumberButton 12).

(** [sampleMenu] after then choosing addition and the practice of a specific
    number again: the number 12 is still chosen. *)
Definition staleMenu : Menu.t :=
  click (click sampleMenu (OperationButton addition))
    (PracticeModeButton specific_number).

(** A coercion that reads every string, array and object as [NaN]. *)
Definition sampleCoercion : Untyped.Coercion :=
  {| Untyped.ToNumber := λ _, Normal None |}.

(** A world whose store works and holds the JSON text of the value. *)
Definition holding (v : Untyped.Value) : Untyped.World :=
  {| Untyped.storage :=
       {| Untyped.getItem_throws := false; Untyped.setItem_throws := false;
          Untyped.item := Some (Untyped.Json v) |};
     Untyped.isoNow := "2023-11-14T22:13:20.000Z";
     Untyped.console := [] |}.

(** A world whose store works and holds the scores. *)
Definition storing (scores : gmap string HighScore.t) : World :=
  with_storage
    {| getItem_throws := false; setItem_throws := false;
       item := Some (Encoded scores) |}
    sampleWorld.

(** * Properties *)

(** ** The sample game *)

Example sampleGame_answers :
  map (λ a, (FallingAnswer.id a, FallingAnswer.value a, FallingAnswer.isCorrect a))
    (fallingAnswers sampleGame)
  = [("answer-1700000000000-0", 15, true); ("answer-1700000000001-1", 16, false);
     ("answer-1700000000002-2", 18, false); ("answer-1700000000003-3", 17, false)].
Proof. reflexivity. Qed.

Example sampleGame_counters :
  (status sampleGame, score sampleGame, lives sampleGame, level sampleGame)
  = (playing, 0, 3, 1).
Proof. reflexivity. Qed.

Example sampleGame_abscissas :
  map (λ a, this (FallingAnswer.x a)) (fallingAnswers sampleGame)
  = [160 # 1; 320 # 1; 480 # 1; 640 # 1]%Q.
Proof. reflexivity. Qed.

Example sampleGame_score_key : getScoreKey sampleSettings = "addition-all-60s".
Proof. reflexivity. Qed.

(** ** Arithmetic of [Math.max], [Math.min] and [clamp] *)

Lemma Math_max_l (a b : Qc) : (b ≤ a)%Qc → Math.max a b = a.
Proof.
  intros Hba. unfold Math.max. case_decide as Hlt; [|done].
  by apply Qclt_not_le in Hlt.
Qed.

Lemma Math_max_r (a b : Qc) : (a ≤ b)%Qc → Math.max a b = b.
Proof.
  intros Hab. unfold Math.max. case_decide as Hlt; [done|].
  apply Qcnot_lt_le in Hlt. by apply Qcle_antisym.
Qed.

Lemma Math_min_l (a b : Qc) : (a ≤ b)%Qc → Math.min a b = a.
Proof.
  intros Hab. unfold Math.min. case_decide as Hlt; [|done].
  by apply Qclt_not_le in Hlt.
Qed.

Lemma Math_min_r (a b : Qc) : (b ≤ a)%Qc → Math.min a b = b.
Proof.
  intros Hba. unfold Math.min. case_decide as Hlt; [done|].
  apply Qcnot_lt_le in Hlt. by apply Qcle_antisym.
Qed.

Lemma Math_max_min_clamp (lo hi v : Qc) :
  (lo ≤ hi)%Qc → Math.max lo (Math.min hi v) = clamp v lo hi.
Proof.
  intros Hlohi. unfold clamp.
  destruct (decide (v < lo)%Qc) as [Hlow|Hlow].
  - rewrite Math_min_r, Math_max_l; auto using Qclt_le_weak.
    apply Qclt_le_weak. by apply Qclt_le_trans with lo.
  - apply Qcnot_lt_le in Hlow.
    destruct (decide (hi < v)%Qc) as [Hhigh|Hhigh].
    + rewrite Math_min_l, Math_max_r; auto using Qclt_le_weak.
    + apply Qcnot_lt_le in Hhigh. by rewrite Math_min_r, Math_max_r.
Qed.

Lemma half_player_width : (PLAYER_SIZE / Qc_of_Z 2)%Qc = Qc_of_Z 30.
Proof. by apply Qc_is_canon. Qed.

Lemma right_bound : (GAME_WIDTH - PLAYER_SIZE / Qc_of_Z 2)%Qc = Qc_of_Z 770.
Proof. by apply Qc_is_canon. Qed.

Lemma Math_max_zero_expired (t d : Qc) :
  (t ≤ d)%Qc → Math.max (Qc_of_Z 0) (t - d)%Qc = Qc_of_Z 0.
Proof.
  intros Htd. apply Math_max_l. rewrite Z2Qc_inj_0.
  apply Qcnot_lt_le. intros Hpos.
  apply Qclt_minus_iff in Hpos. by apply Qclt_not_le in Hpos.
Qed.

(** ** MOVE_PLAYER *)

Lemma gameReducer_move_player `{MathUtils} (state : GameState) (x : Qc) (w : World) :
  gameReducer state (MOVE_PLAYER x) w = (movedTo state x, w).
Proof.
  unfold gameReducer, movedTo. do 2 f_equal.
  rewrite right_bound, half_player_width.
  apply Math_max_min_clamp. by apply Z2Qc_inj_le.
Qed.

Lemma clamp_low (x lo hi : Qc) : (lo ≤ hi)%Qc → (x ≤ lo)%Qc → clamp x lo hi = lo.
Proof.
  intros Hbounds Hlow. unfold clamp. case_decide as Hlt; [done|].
  apply Qcnot_lt_le in Hlt. case_decide as Hgt.
  - exfalso. apply (Qclt_not_le _ _ Hgt). by trans lo.
  - by apply Qcle_antisym.
Qed.

Lemma clamp_high (x lo hi : Qc) : (lo ≤ hi)%Qc → (hi ≤ x)%Qc → clamp x lo hi = hi.
Proof.
  intros Hbounds Hhigh. unfold clamp. case_decide as Hlt.
  - exfalso. apply (Qclt_not_le _ _ Hlt). by trans hi.
  - case_decide as Hgt; [done|].
    apply Qcnot_lt_le in Hgt. by apply Qcle_antisym.
Qed.

Lemma clamp_inside (x lo hi : Qc) : (lo ≤ x ≤ hi)%Qc → clamp x lo hi = x.
Proof.
  intros [Hlow Hhigh]. unfold clamp.
  case_decide as Hlt; [by apply Qclt_not_le in Hlt|].
  case_decide as Hgt; [by apply Qclt_not_le in Hgt|done].
Qed.

(** C6. For every state and every target abscissa, MOVE_PLAYER sets
    [playerX] to [clamp x (PLAYER_SIZE / 2) (GAME_WIDTH - PLAYER_SIZE / 2)],
    that is [clamp x 30 770], and touches nothing else; a target at or
    beyond a bound lands exactly on the bound and a target between the
    bounds is kept as it is. *)
Theorem C6_move_player_clamps `{MathUtils} (state : GameState) (x : Qc) (w : World) :
  let moved := (gameReducer state (MOVE_PLAYER x) w).1 in
  playerX moved = clamp x (PLAYER_SIZE / Qc_of_Z 2) (GAME_WIDTH - PLAYER_SIZE / Qc_of_Z 2)%Qc
  ∧ playerX moved = clamp x (Qc_of_Z 30) (Qc_of_Z 770)
  ∧ ((x ≤ Qc_of_Z 30)%Qc → playerX moved = Qc_of_Z 30)
  ∧ ((Qc_of_Z 770 ≤ x)%Qc → playerX moved = Qc_of_Z 770)
  ∧ ((Qc_of_Z 30 ≤ x ≤ Qc_of_Z 770)%Qc → playerX moved = x)
  ∧ gameReducer state (MOVE_PLAYER x) w =
      ({| status := status state;
          settings := settings state;
          currentProblem := currentProblem state;
          fallingAnswers := fallingAnswers state;
          bullets := bullets state;
          playerX := clamp x (Qc_of_Z 30) (Qc_of_Z 770);
          score := score state;
          lives := lives state;
          level := level state;
          showingAnswer := showingAnswer state;
          timeRemaining := timeRemaining state |}, w).
Proof.
  assert (Hbounds : (Qc_of_Z 30 ≤ Qc_of_Z 770)%Qc) by (by apply Z2Qc_inj_le).
  rewrite gameReducer_move_player. cbn [fst movedTo playerX].
  rewrite right_bound, half_player_width.
  split_and!; auto using clamp_low, clamp_high, clamp_inside.
Qed.

(** C6 at the targets 1000, -5 and 400: the ship lands on 770, 30 and 400. *)
Lemma C6_move_player_clamps_witness :
  playerX (@gameReducer sampleMathUtils sampleGame (MOVE_PLAYER (Qc_of_Z 1000)) sampleWorld).1
    = Qc_of_Z 770
  ∧ playerX (@gameReducer sampleMathUtils sampleGame (MOVE_PLAYER (Qc_of_Z (-5))) sampleWorld).1
    = Qc_of_Z 30
  ∧ playerX (@gameReducer sampleMathUtils sampleGame (MOVE_PLAYER (Qc_of_Z 400)) sampleWorld).1
    = Qc_of_Z 400.
Proof.
  split_and!.
  - apply (@C6_move_player_clamps sampleMathUtils sampleGame (Qc_of_Z 1000) sampleWorld).
    by apply Z2Qc_inj_le.
  - apply (@C6_move_player_clamps sampleMathUtils sampleGame (Qc_of_Z (-5)) sampleWorld).
    by apply Z2Qc_inj_le.
  - apply (@C6_move_player_clamps sampleMathUtils sampleGame (Qc_of_Z 400) sampleWorld).
    split; by apply Z2Qc_inj_le.
Defined.

(** C5, as the claim states it, fails: in the menu, MOVE_PLAYER with target 0
    moves the ship from 400 to 30. *)
Lemma C5_move_in_menu_not_ignored :
  status createInitialState ≠ playing
  ∧ (@gameReducer sampleMathUtils createInitialState (MOVE_PLAYER (Qc_of_Z 0)) sampleWorld).1
    ≠ createInitialState.
Proof.
  split; [done|].
  intros Heq. apply (f_equal (λ s, this (playerX s))) in Heq.
  vm_compute in Heq. discriminate.
Qed.

(** C5, amended. While the status is not [playing], SHOOT returns the state
    and the world as they are.  MOVE_PLAYER has no such guard: in every
    status it returns the state with [playerX] clamped to [30, 770] and
    nothing else changed, so it is ignored exactly when the ship already
    stands on the clamped target.  Neither action fails. *)
Theorem C5_shoot_ignored_move_clamps `{MathUtils} (state : GameState) (w : World) :
  status state ≠ playing →
  gameReducer state SHOOT w = (state, w)
  ∧ ∀ x : Qc,
      gameReducer state (MOVE_PLAYER x) w =
        ({| status := status state;
            settings := settings state;
            currentProblem := currentProblem state;
            fallingAnswers := fallingAnswers state;
            bullets := bullets state;
            playerX := clamp x (Qc_of_Z 30) (Qc_of_Z 770);
            score := score state;
            lives := lives state;
            level := level state;
            showingAnswer := showingAnswer state;
            timeRemaining := timeRemaining state |}, w)
      ∧ ((gameReducer state (MOVE_PLAYER x) w).1 = state
         ↔ playerX state = clamp x (Qc_of_Z 30) (Qc_of_Z 770)).
Proof.
  intros Hidle. split.
  - unfold gameReducer. by case_decide.
  - intros x. rewrite gameReducer_move_player. split; [done|].
    cbn [fst]. unfold movedTo. split.
    + intros Heq. by rewrite <-Heq at 1.
    + intros <-. by destruct state.
Qed.

(** C5 in the menu: SHOOT changes nothing, MOVE_PLAYER to 0 puts the ship
    on 30. *)
Lemma C5_shoot_ignored_move_clamps_witness :
  @gameReducer sampleMathUtils createInitialState SHOOT sampleWorld
    = (createInitialState, sampleWorld)
  ∧ playerX (@gameReducer sampleMathUtils createInitialState
               (MOVE_PLAYER (Qc_of_Z 0)) sampleWorld).1 = Qc_of_Z 30.
Proof.
  assert (Hidle : status createInitialState ≠ playing) by done.
  destruct (@C5_shoot_ignored_move_clamps sampleMathUtils createInitialState
              sampleWorld Hidle) as [Hshoot Hmove].
  split; [exact Hshoot|].
  destruct (Hmove (Qc_of_Z 0)) as [-> _]. cbn [fst playerX].
  apply clamp_low; by apply Z2Qc_inj_le.
Defined.

(** ** UPDATE_TIMER *)

Lemma gameReducer_update_timer_idle `{MathUtils} (state : GameState) (deltaTime : Qc)
    (w : World) :
  status state ≠ playing → gameReducer state (UPDATE_TIMER deltaTime) w = (state, w).
Proof. intros Hidle. unfold gameReducer. by case_decide. Qed.

Lemma dispatchAll_update_timer_idle `{MathUtils} (state : GameState) (deltas : list Qc)
    (w : World) :
  status state ≠ playing → dispatchAll state (UPDATE_TIMER <$> deltas) w = (state, w).
Proof.
  intros Hidle. induction deltas as [|d deltas IH]; [done|].
  cbn [fmap list_fmap dispatchAll].
  by rewrite gameReducer_update_timer_idle.
Qed.

(** C1. In a state that is [playing] with time left, UPDATE_TIMER with a
    delta of at least the time left ends the game: the status becomes
    [gameOver], [timeRemaining] becomes 0, the high score is offered to the
    store (when there are settings) and nothing else changes.  From then on
    any sequence of further UPDATE_TIMER actions leaves the state and the
    world as they are, so the transition and the save happen once.
    UPDATE_TIMER is ignored in every state that is not [playing]. *)
Theorem C1_timer_expires_once `{MathUtils} (state : GameState) (deltaTime : Qc)
    (w : World) :
  status state = playing →
  (Qc_of_Z 0 < timeRemaining state)%Qc →
  (timeRemaining state ≤ deltaTime)%Qc →
  let expired := (gameReducer state (UPDATE_TIMER deltaTime) w).1 in
  expired =
    {| status := gameOver;
       settings := settings state;
       currentProblem := currentProblem state;
       fallingAnswers := fallingAnswers state;
       bullets := bullets state;
       playerX := playerX state;
       score := score state;
       lives := lives state;
       level := level state;
       showingAnswer := showingAnswer state;
       timeRemaining := Qc_of_Z 0 |}
  ∧ (gameReducer state (UPDATE_TIMER deltaTime) w).2 =
      match settings state with
      | Some settings' => (saveHighScore settings' (score state) w).2
      | None => w
      end
  ∧ (∀ (deltas : list Qc) (w' : World),
       dispatchAll expired (UPDATE_TIMER <$> deltas) w' = (expired, w'))
  ∧ (∀ (idle : GameState) (delta : Qc) (w' : World),
       status idle ≠ playing → gameReducer idle (UPDATE_TIMER delta) w' = (idle, w')).
Proof.
  intros Hplaying Hleft Hdelta expired.
  assert (Hexpired : gameReducer state (UPDATE_TIMER deltaTime) w =
    ({| status := gameOver;
        settings := settings state;
        currentProblem := currentProblem state;
        fallingAnswers := fallingAnswers state;
        bullets := bullets state;
        playerX := playerX state;
        score := score state;
        lives := lives state;
        level := level state;
        showingAnswer := showingAnswer state;
        timeRemaining := Qc_of_Z 0 |},
     match settings state with
     | Some settings' => (saveHighScore settings' (score state) w).2
     | None => w
     end)).
  { unfold gameReducer. rewrite Hplaying.
    case_decide as Hidle; [done|].
    rewrite Math_max_zero_expired by done.
    case_decide as Hcross; [done|]. by destruct Hcross. }
  subst expired. rewrite Hexpired. cbn [fst snd]. split_and!; [done..| |].
  - intros deltas w'. by apply dispatchAll_update_timer_idle.
  - intros idle delta w'. apply gameReducer_update_timer_idle.
Qed.

(** C1 on the sample game, 60 seconds left, with a tick of 61 seconds
    followed by ticks of 1 and 5 seconds. *)
Lemma C1_timer_expires_once_witness :
  let expired :=
    (@gameReducer sampleMathUtils sampleGame (UPDATE_TIMER (Qc_of_Z 61)) sampleWorld).1 in
  status expired = gameOver
  ∧ timeRemaining expired = Qc_of_Z 0
  ∧ (@dispatchAll sampleMathUtils expired
       [UPDATE_TIMER (Qc_of_Z 1); UPDATE_TIMER (Qc_of_Z 5)] sampleWorld).1 = expired.
Proof.
  assert (Hplaying : status sampleGame = playing) by reflexivity.
  assert (Hleft : (Qc_of_Z 0 < timeRemaining sampleGame)%Qc) by (by vm_compute).
  assert (Hdelta : (timeRemaining sampleGame ≤ Qc_of_Z 61)%Qc) by (by vm_compute).
  destruct (@C1_timer_expires_once sampleMathUtils sampleGame (Qc_of_Z 61) sampleWorld
              Hplaying Hleft Hdelta) as (Hexpired & _ & Hpinned & _).
  intros expired. split_and!.
  - subst expired. by rewrite Hexpired.
  - subst expired. by rewrite Hexpired.
  - exact (f_equal fst (Hpinned [Qc_of_Z 1; Qc_of_Z 5] sampleWorld)).
Defined.

(** ** The score store *)

Lemma or_zero_Some (n : Z) : or_zero (Some n) = n.
Proof. unfold or_zero. by case_decide. Qed.

Lemma getHighScores_readable (w : World) :
  ¬ unreadable (storage w) → getHighScores w = (storedScores (storage w), w).
Proof.
  unfold unreadable, getHighScores, storedScores, localStorage_getItem.
  intros Hread. destruct (getItem_throws (storage w)); [tauto|].
  destruct (item (storage w)) as [[| |scores]|]; [done|tauto|done..].
Qed.

Lemma getHighScores_unreadable (w : World) :
  unreadable (storage w) →
  getHighScores w = (∅, console_error "Failed to load high scores:" w).
Proof.
  unfold unreadable, getHighScores, localStorage_getItem.
  intros [Hget|Hitem].
  - by rewrite Hget.
  - rewrite Hitem. by destruct (getItem_throws (storage w)).
Qed.

Lemma getHighScores_storage (w : World) : storage (getHighScores w).2 = storage w.
Proof.
  unfold getHighScores.
  by destruct (localStorage_getItem (storage w)) as [[[| |scores]|]|].
Qed.

Lemma getHighScore_stored (settings' : GameSettings) (w : World)
    (scores : gmap string HighScore.t) :
  getItem_throws (storage w) = false →
  item (storage w) = Some (Encoded scores) →
  (getHighScore settings' w).1 =
    or_zero (HighScore.score <$> scores !! getScoreKey settings').
Proof.
  intros Hget Hitem. unfold getHighScore.
  rewrite getHighScores_readable.
  - unfold storedScores. by rewrite Hitem.
  - unfold unreadable. rewrite Hget, Hitem. by intros [|].
Qed.

(** What [saveHighScore] does, by the outcome of the comparison and of the
    write. *)
Lemma saveHighScore_unfold (settings' : GameSettings) (score' : Z) (w : World) :
  let scores := (getHighScores w).1 in
  let w1 := (getHighScores w).2 in
  let key := getScoreKey settings' in
  saveHighScore settings' score' w =
    if decide ((getHighScore settings' w).1 < score') then
      if setItem_throws (storage w)
      then (false, console_error "Failed to save high score:" w1)
      else (true,
            with_storage
              {| getItem_throws := getItem_throws (storage w);
                 setItem_throws := setItem_throws (storage w);
                 item := Some (Encoded
                   (<[key := {| HighScore.score := score';
                                HighScore.date := isoNow w |}]> scores)) |} w1)
    else (false, w1).
Proof.
  intros scores w1 key. unfold saveHighScore, getHighScore.
  pose proof (getHighScores_storage w) as Hstorage.
  assert (Hiso : isoNow (getHighScores w).2 = isoNow w).
  { unfold getHighScores.
    by destruct (localStorage_getItem (storage w)) as [[[| |?]|]|]. }
  subst scores w1 key. destruct (getHighScores w) as [scores w1].
  cbn [fst snd] in *. case_decide; [|done].
  unfold localStorage_setItem. rewrite Hstorage, Hiso.
  by destruct (setItem_throws (storage w)).
Qed.

(** *** The store over any stored text *)

Lemma untypedRecord_score (h : HighScore.t) :
  Untyped.or_zero (Untyped.optional_get (Some (untypedRecord h)) "score")
  = Untyped.Number (Untyped.Finite (Qc_of_Z (HighScore.score h))).
Proof.
  unfold untypedRecord. cbn [Untyped.optional_get].
  rewrite lookup_insert_eq. cbn. case_bool_decide as Hzero; [|done].
  by rewrite Hzero.
Qed.

Lemma less_Z (best score' : Z) :
  Untyped.less (Untyped.Finite (Qc_of_Z best)) score' = bool_decide (best < score').
Proof.
  unfold Untyped.less. apply bool_decide_ext. symmetry.
  apply (Z2Qc_inj_lt best score').
Qed.

Lemma getHighScores_untyped (w : World) :
  Untyped.getHighScores (untyped w)
  = (Untyped.Object (untypedRecord <$> (getHighScores w).1),
     untyped (getHighScores w).2).
Proof.
  unfold Untyped.getHighScores, getHighScores, Untyped.localStorage_getItem,
    localStorage_getItem, untyped.
  destruct w as [rng clock' iso [[|] writes [[| |scores]|]] log];
    cbn; by rewrite ?fmap_empty.
Qed.

(** Over a world of the engine, the untyped [getHighScore] returns the
    number that [getHighScore] returns, and leaves the same world. *)
Lemma getHighScore_untyped (settings' : GameSettings) (w : World) :
  Untyped.getHighScore settings' (untyped w)
  = (Normal (Untyped.Number (Untyped.Finite (Qc_of_Z (getHighScore settings' w).1))),
     untyped (getHighScore settings' w).2).
Proof.
  unfold Untyped.getHighScore, getHighScore. rewrite getHighScores_untyped.
  destruct (getHighScores w) as [scores w1]. cbn [fst snd Untyped.get].
  rewrite lookup_fmap. destruct (scores !! getScoreKey settings') as [h|]; [|done].
  cbn [fmap option_fmap option_map]. rewrite or_zero_Some.
  by rewrite untypedRecord_score.
Qed.

(** Over a world of the engine, the untyped [saveHighScore] returns what
    [saveHighScore] returns, and leaves the same world. *)
Lemma saveHighScore_untyped `{Untyped.Coercion} (settings' : GameSettings)
    (score' : Z) (w : World) :
  Untyped.saveHighScore settings' score' (untyped w)
  = ((saveHighScore settings' score' w).1,
     untyped (saveHighScore settings' score' w).2).
Proof.
  unfold Untyped.saveHighScore, saveHighScore, Untyped.trySave.
  rewrite getHighScores_untyped.
  destruct (getHighScores w) as [scores w1]. cbn [fst snd Untyped.get].
  rewrite lookup_fmap.
  assert (Hbest : Untyped.or_zero
            (Untyped.optional_get (untypedRecord <$> scores !! getScoreKey settings')
               "score")
          = Untyped.Number (Untyped.Finite (Qc_of_Z
              (or_zero (HighScore.score <$> scores !! getScoreKey settings'))))).
  { destruct (scores !! getScoreKey settings') as [h|]; [|done].
    cbn [fmap option_fmap option_map]. by rewrite or_zero_Some, untypedRecord_score. }
  rewrite Hbest. cbn [Untyped.greater]. rewrite less_Z.
  destruct w1 as [rng clock' iso [reads [|] content] log].
  - case_decide as Hhigher; [by rewrite bool_decide_eq_true_2|].
    by rewrite bool_decide_eq_false_2.
  - case_decide as Hhigher; [|by rewrite bool_decide_eq_false_2].
    rewrite bool_decide_eq_true_2 by done. cbn.
    unfold Untyped.with_storage, Untyped.JSON_stringify, untyped. cbn.
    rewrite (fmap_insert untypedRecord), (fmap_insert Untyped.reparsed).
    rewrite <- map_fmap_compose. by do 6 f_equal.
Qed.

Lemma untyped_getHighScores_unreadable (w : Untyped.World) :
  Untyped.unreadable (Untyped.storage w) →
  Untyped.getHighScores w
  = (Untyped.Object ∅, Untyped.console_error "Failed to load high scores:" w).
Proof.
  unfold Untyped.unreadable, Untyped.getHighScores, Untyped.localStorage_getItem.
  intros [Hget|Hitem].
  - by rewrite Hget.
  - rewrite Hitem. by destruct (Untyped.getItem_throws (Untyped.storage w)).
Qed.

Lemma untyped_getHighScores_readable (w : Untyped.World) :
  ¬ Untyped.unreadable (Untyped.storage w) →
  Untyped.getHighScores w = (Untyped.parsed (Untyped.storage w), w).
Proof.
  unfold Untyped.unreadable, Untyped.getHighScores, Untyped.localStorage_getItem,
    Untyped.parsed.
  intros Hread. destruct (Untyped.getItem_throws (Untyped.storage w)); [tauto|].
  destruct (Untyped.item (Untyped.storage w)) as [[| |v]|]; [done|tauto|done..].
Qed.

Lemma untyped_getHighScores_world (w : Untyped.World) :
  Untyped.storage (Untyped.getHighScores w).2 = Untyped.storage w
  ∧ Untyped.isoNow (Untyped.getHighScores w).2 = Untyped.isoNow w.
Proof.
  unfold Untyped.getHighScores.
  by destruct (Untyped.localStorage_getItem (Untyped.storage w)) as [[[| |v]|]|].
Qed.

Lemma untyped_getHighScore_unfold (settings' : GameSettings) (w : Untyped.World) :
  Untyped.getHighScore settings' w
  = (match Untyped.get (Untyped.getHighScores w).1 (getScoreKey settings') with
     | Throw error => Throw error
     | Normal entry =>
         Normal (Untyped.or_zero (Untyped.optional_get entry "score"))
     end, (Untyped.getHighScores w).2).
Proof.
  unfold Untyped.getHighScore. destruct (Untyped.getHighScores w) as [scores w1].
  cbn [fst snd]. by destruct (Untyped.get scores (getScoreKey settings')).
Qed.

Lemma untyped_saveHighScore_unfold `{Untyped.Coercion} (settings' : GameSettings)
    (score' : Z) (w : Untyped.World) :
  Untyped.saveHighScore settings' score' w
  = match Untyped.trySave settings' score' (Untyped.getHighScores w).1
            (Untyped.getHighScores w).2 with
    | Normal result => result
    | Throw _ =>
        (false, Untyped.console_error "Failed to save high score:"
                  (Untyped.getHighScores w).2)
    end.
Proof.
  unfold Untyped.saveHighScore. by destruct (Untyped.getHighScores w) as [scores w1].
Qed.

(** What the body of the [try] does over an object and over an array. *)
Lemma untyped_trySave_container `{Untyped.Coercion} (settings' : GameSettings)
    (score' : Z) (scores : Untyped.Value) (written : Untyped.Value → Untyped.Value)
    (entry : option Untyped.Value)
    (w : Untyped.World) :
  Untyped.get scores (getScoreKey settings') = Normal entry →
  (∀ record, Untyped.set scores (getScoreKey settings') record = Normal (written record)) →
  Untyped.trySave settings' score' scores w
  = match Untyped.greater score'
            (Untyped.or_zero (Untyped.optional_get entry "score")) with
    | Throw error => Throw error
    | Normal false => Normal (false, w)
    | Normal true =>
        if Untyped.setItem_throws (Untyped.storage w)
        then Throw "QuotaExceededError"
        else Normal
               (true,
                Untyped.with_storage
                  {| Untyped.getItem_throws :=
                       Untyped.getItem_throws (Untyped.storage w);
                     Untyped.setItem_throws := false;
                     Untyped.item :=
                       Some (Untyped.JSON_stringify
                               (written
                                  (Untyped.Object
                                     {[ "score" := Untyped.Number
                                                     (Untyped.Finite
                                                        (Qc_of_Z score'));
                                        "date" := Untyped.Str (Untyped.isoNow w)
                                     ]}))) |} w)
    end.
Proof.
  intros Hget Hset. unfold Untyped.trySave. rewrite Hget.
  destruct (Untyped.greater score' _) as [[|]|error]; [|done..].
  rewrite Hset. unfold Untyped.localStorage_setItem.
  by destruct (Untyped.setItem_throws (Untyped.storage w)) eqn:Hwrites.
Qed.

(** The body of the [try] returns [false] and leaves the world, or returns
    [true] after a write. *)
Lemma untyped_trySave_outcome `{Untyped.Coercion} (settings' : GameSettings)
    (score' : Z) (scores : Untyped.Value) (w : Untyped.World) :
  match Untyped.trySave settings' score' scores w with
  | Normal (false, w') => w' = w
  | Normal (true, w') =>
      Untyped.setItem_throws (Untyped.storage w) = false
      ∧ Untyped.console w' = Untyped.console w
  | Throw _ => True
  end.
Proof.
  unfold Untyped.trySave.
  destruct (Untyped.get scores _) as [entry|]; [|done].
  destruct (Untyped.greater score' _) as [[|]|]; [|done..].
  destruct (Untyped.set scores _ _) as [scores'|]; [|done].
  unfold Untyped.localStorage_setItem.
  by destruct (Untyped.setItem_throws (Untyped.storage w)).
Qed.

(** C8, as the claim states it, fails twice.  Over a store whose text is
    not JSON, which is unreadable, [getHighScore] returns 0 and
    [saveHighScore] of a score of 10 returns [true]; and over a store that
    holds the JSON text [null], [getHighScore] throws a [TypeError]. *)
Lemma C8_record_over_unreadable_store :
  Untyped.unreadable (Untyped.storage (untyped corruptWorld))
  ∧ (Untyped.getHighScore sampleSettings (untyped corruptWorld)).1
    = Normal (Untyped.Number (Untyped.Finite (Qc_of_Z 0)))
  ∧ (@Untyped.saveHighScore sampleCoercion sampleSettings 10
       (untyped corruptWorld)).1 ≠ false
  ∧ (Untyped.getHighScore sampleSettings (holding Untyped.Null)).1
    = Throw "TypeError".
Proof. split_and!; [by right|done..]. Qed.

(** C8, amended, over whatever text the store holds.

    Reading.  When the store cannot be read ([getItem] throws or the text is
    not JSON), [getHighScores] logs the failure and returns no scores, so
    [getHighScore] returns 0; otherwise the scores are what the text
    encodes, and nothing is logged.

    [getHighScore] returns 0 if the scores are an object without an entry
    for the configuration, the stored score if the entry is a record of
    [saveHighScore], and 0 if the scores are a boolean, a number, a string
    or an array.  It throws, a [TypeError], exactly when the text encodes
    [null].

    [saveHighScore] over scores that are an object (as they are over an
    unreadable, an empty and an absent store) returns [true] if and only if
    the score is greater than the value [getHighScore] returns and
    [setItem] works; the score is then what [getHighScore] returns next
    (provided [getItem] works).  If the score is greater and [setItem]
    throws, or if the comparison itself throws, it logs the failure and
    returns [false].  Over [null] it logs a failure and returns [false];
    over a boolean, a number or a string it returns [false], logging a
    failure when the score is positive; over an array it returns [true] for
    every positive score that can be written, and records nothing.

    Whenever [saveHighScore] returns [false] the store is as it was, and it
    returns [false] whenever [setItem] throws.  [saveHighScore] always
    returns: its [try] covers its whole body. *)
Theorem C8_score_store `{Untyped.Coercion} (settings' : GameSettings) (score' : Z)
    (w : Untyped.World) :
  let ls := Untyped.storage w in
  let key := getScoreKey settings' in
  let zero := Untyped.Number (Untyped.Finite (Qc_of_Z 0)) in
  let scores := (Untyped.getHighScores w).1 in
  let w1 := (Untyped.getHighScores w).2 in
  let looked := Untyped.getHighScore settings' w in
  let saved := Untyped.saveHighScore settings' score' w in
  let failed := Untyped.console_error "Failed to save high score:" w1 in
  (Untyped.unreadable ls →
     scores = Untyped.Object ∅
     ∧ w1 = Untyped.console_error "Failed to load high scores:" w
     ∧ looked.1 = Normal zero)
  ∧ (¬ Untyped.unreadable ls → scores = Untyped.parsed ls ∧ w1 = w)
  ∧ looked.2 = w1
  ∧ (∀ props : gmap string Untyped.Value, scores = Untyped.Object props →
       (props !! key = None → looked.1 = Normal zero)
       ∧ (∀ h : HighScore.t, props !! key = Some (untypedRecord h) →
            looked.1 = Normal (Untyped.Number
                                 (Untyped.Finite (Qc_of_Z (HighScore.score h))))))
  ∧ ((∃ error, looked.1 = Throw error) ↔ scores = Untyped.Null)
  ∧ (Untyped.primitive scores ∨ (∃ items, scores = Untyped.Array items) →
       looked.1 = Normal zero)
  ∧ (∀ (props : gmap string Untyped.Value) (best : Untyped.Value),
       scores = Untyped.Object props → looked.1 = Normal best →
       (saved.1 = true
        ↔ Untyped.greater score' best = Normal true
          ∧ Untyped.setItem_throws ls = false)
       ∧ (∀ q : Qc, best = Untyped.Number (Untyped.Finite q) →
            (saved.1 = true
             ↔ (q < Qc_of_Z score')%Qc ∧ Untyped.setItem_throws ls = false))
       ∧ (saved.1 = true → Untyped.getItem_throws ls = false →
            (Untyped.getHighScore settings' saved.2).1
            = Normal (Untyped.Number (Untyped.Finite (Qc_of_Z score'))))
       ∧ (Untyped.greater score' best = Normal true →
          Untyped.setItem_throws ls = true → saved = (false, failed))
       ∧ ((∃ error, Untyped.greater score' best = Throw error) →
          saved = (false, failed)))
  ∧ (scores = Untyped.Null → saved = (false, failed))
  ∧ (Untyped.primitive scores →
       saved = (false, if decide (0 < score') then failed else w1))
  ∧ (∀ items : list Untyped.Value, scores = Untyped.Array items →
       (saved.1 = true ↔ 0 < score' ∧ Untyped.setItem_throws ls = false)
       ∧ (saved.1 = true →
            (Untyped.getHighScore settings' saved.2).1 = Normal zero))
  ∧ (saved.1 = false → Untyped.storage saved.2 = ls)
  ∧ (Untyped.setItem_throws ls = true → saved.1 = false).
Proof.
  intros ls key zero scores w1 looked saved failed.
  destruct (untyped_getHighScores_world w) as [Hstorage Hiso].
  fold w1 ls in Hstorage. fold w1 in Hiso.
  assert (Hlooked := untyped_getHighScore_unfold settings' w).
  assert (Hsaved := untyped_saveHighScore_unfold settings' score' w).
  fold looked scores w1 key in Hlooked. fold saved scores w1 failed in Hsaved.
  clearbody looked saved. subst looked saved. cbn [fst snd].
  assert (Hzero : ∀ n : Z,
            Untyped.greater n zero = Normal (bool_decide (0 < n))).
  { intros n. subst zero. cbn [Untyped.greater]. by rewrite less_Z. }
  split_and!.
  - intros Hbroken. subst scores w1.
    rewrite (untyped_getHighScores_unreadable w Hbroken). by cbn.
  - intros Hread. subst scores w1.
    by rewrite (untyped_getHighScores_readable w Hread).
  - done.
  - intros props Hprops. rewrite Hprops. cbn [Untyped.get]. split.
    + by intros ->.
    + intros h ->. by rewrite untypedRecord_score.
  - split.
    + intros [error Hthrow]. by destruct scores.
    + by intros ->; eexists.
  - intros [Hprimitive|[items ->]]; [|done]. by destruct scores.
  - intros props best Hprops Hbest. rewrite Hprops in Hbest |- *.
    cbn [Untyped.get] in Hbest. injection Hbest as Hbest.
    rewrite (untyped_trySave_container settings' score' (Untyped.Object props)
               (λ record, Untyped.Object (<[key := record]> props))
               (props !! key)) by done.
    rewrite Hbest, Hstorage.
    destruct (Untyped.greater score' best) as [[|]|error] eqn:Hgreater;
      destruct (Untyped.setItem_throws ls) eqn:Hwrites; cbn [fst snd].
    all: split_and!; try done; try (by intros [? [=]]); try (by split; [|intros [[=] _]]);
      try (by split; [|intros [_ [=]]]).
    + intros q Hq. rewrite Hq in Hgreater.
      cbn [Untyped.greater Untyped.less] in Hgreater.
      injection Hgreater as Hless. by apply bool_decide_eq_true in Hless.
    + intros _ Hreads. rewrite untyped_getHighScore_unfold.
      rewrite untyped_getHighScores_readable
        by (unfold Untyped.unreadable; cbn; rewrite Hreads; by intros [|]).
      unfold Untyped.parsed. cbn. rewrite lookup_fmap, lookup_insert_eq. cbn.
      rewrite lookup_fmap, lookup_insert_eq. cbn.
      case_bool_decide as Hnone; [|done]. by rewrite Hnone.
    + intros q Hq. rewrite Hq in Hgreater.
      cbn [Untyped.greater Untyped.less] in Hgreater.
      injection Hgreater as Hless. apply bool_decide_eq_false in Hless.
      split; [done|]. by intros [? _].
    + intros q Hq. by rewrite Hq in Hgreater.
  - intros ->. by cbn.
  - intros Hprimitive. unfold Untyped.trySave.
    assert (Hget : Untyped.get scores (getScoreKey settings') = Normal None)
      by (by destruct scores).
    assert (Hset : ∀ record, Untyped.set scores (getScoreKey settings') record
                             = Throw "TypeError")
      by (by destruct scores).
    rewrite Hget. cbn [Untyped.optional_get Untyped.or_zero]. fold zero.
    rewrite Hzero, Hset. by case_decide; [rewrite bool_decide_eq_true_2|rewrite bool_decide_eq_false_2].
  - intros items ->.
    rewrite (untyped_trySave_container settings' score' (Untyped.Array items)
               (λ _, Untyped.Array items) None) by done.
    cbn [Untyped.optional_get Untyped.or_zero]. fold zero. rewrite Hzero, Hstorage.
    case_bool_decide as Hpositive; destruct (Untyped.setItem_throws ls) eqn:Hwrites;
      cbn [fst snd]; split; try done; try (by split; [|intros [_ [=]]]);
      try (by split; [|intros [? _]]).
    intros _. rewrite untyped_getHighScore_unfold.
    destruct (Untyped.getItem_throws ls) eqn:Hreads.
    + rewrite untyped_getHighScores_unreadable; [done|]. left. by cbn.
    + rewrite untyped_getHighScores_readable; [done|].
      unfold Untyped.unreadable. cbn. by intros [|].
  - pose proof (untyped_trySave_outcome settings' score' scores w1) as Houtcome.
    destruct (Untyped.trySave settings' score' scores w1) as [[[|] w2]|];
      cbn [fst snd]; [done|by intros _; subst w2|done].
  - pose proof (untyped_trySave_outcome settings' score' scores w1) as Houtcome.
    rewrite Hstorage in Houtcome. intros Hfull.
    destruct (Untyped.trySave settings' score' scores w1) as [[[|] w2]|];
      cbn [fst snd]; [|done..]. destruct Houtcome as [Hwrites _]. congruence.
Qed.

(** C8 on four stores: an empty one (a score of 10 is recorded and read
    back), one that is not JSON (the best reads 0 and the failure is logged),
    one that refuses writes (a score of 70 over a best of 50 is not
    recorded) and one that holds [null] (the save fails and is logged). *)
Lemma C8_score_store_witness :
  (Untyped.getHighScore sampleSettings
     (@Untyped.saveHighScore sampleCoercion sampleSettings 10
        (untyped sampleWorld)).2).1
  = Normal (Untyped.Number (Untyped.Finite (Qc_of_Z 10)))
  ∧ Untyped.getHighScore sampleSettings (untyped corruptWorld)
    = (Normal (Untyped.Number (Untyped.Finite (Qc_of_Z 0))),
       Untyped.console_error "Failed to load high scores:" (untyped corruptWorld))
  ∧ (@Untyped.saveHighScore sampleCoercion sampleSettings 70
       (untyped fullWorld)).1 = false
  ∧ @Untyped.saveHighScore sampleCoercion sampleSettings 10 (holding Untyped.Null)
    = (false,
       Untyped.console_error "Failed to save high score:" (holding Untyped.Null)).
Proof.
  split_and!.
  - destruct (@C8_score_store sampleCoercion sampleSettings 10 (untyped sampleWorld))
      as (_ & _ & _ & _ & _ & _ & Hobject & _).
    destruct (Hobject ∅ (Untyped.Number (Untyped.Finite (Qc_of_Z 0))) eq_refl eq_refl)
      as (Hrecorded & _ & Hnext & _).
    apply Hnext; [|done]. by apply Hrecorded.
  - destruct (@C8_score_store sampleCoercion sampleSettings 0 (untyped corruptWorld))
      as (Hbroken & _ & Hworld & _).
    destruct Hbroken as (_ & Hlogged & Hbest); [by right|].
    apply injective_projections; [exact Hbest|]. by rewrite Hworld, Hlogged.
  - destruct (@C8_score_store sampleCoercion sampleSettings 70 (untyped fullWorld))
      as (_ & _ & _ & _ & _ & _ & _ & _ & _ & _ & _ & Hfull).
    by apply Hfull.
  - destruct (@C8_score_store sampleCoercion sampleSettings 10 (holding Untyped.Null))
      as (_ & _ & _ & _ & _ & _ & _ & Hnull & _).
    by apply Hnull.
Defined.

(** ** HIT_ANSWER on a wrong answer *)

Lemma gameReducer_hit_absent `{MathUtils} (state : GameState) (answerId : string)
    (w : World) :
  findAnswer answerId (fallingAnswers state) = None →
  gameReducer state (HIT_ANSWER answerId) w = (state, w).
Proof. intros Habsent. unfold gameReducer. by rewrite Habsent. Qed.

Lemma gameReducer_hit_wrong_alive `{MathUtils} (state : GameState) (answerId : string)
    (answer : FallingAnswer.t) (w : World) :
  findAnswer answerId (fallingAnswers state) = Some answer →
  FallingAnswer.isCorrect answer = false →
  2 ≤ lives state →
  gameReducer state (HIT_ANSWER answerId) w = (wounded state, w).
Proof.
  intros Hfind Hwrong Hlives. unfold gameReducer. rewrite Hfind, Hwrong.
  case_decide; [lia|done].
Qed.

Lemma gameReducer_hit_wrong_fatal `{MathUtils} (state : GameState) (answerId : string)
    (answer : FallingAnswer.t) (w : World) :
  findAnswer answerId (fallingAnswers state) = Some answer →
  FallingAnswer.isCorrect answer = false →
  lives state ≤ 1 →
  gameReducer state (HIT_ANSWER answerId) w = (defeated state, scoreOffered state w).
Proof.
  intros Hfind Hwrong Hlives. unfold gameReducer. rewrite Hfind, Hwrong.
  case_decide; [done|lia].
Qed.

Lemma findAnswer_elem_of (answerId : string) (answers : list FallingAnswer.t)
    (answer : FallingAnswer.t) :
  findAnswer answerId answers = Some answer →
  answer ∈ answers ∧ FallingAnswer.id answer = answerId.
Proof.
  unfold findAnswer. intros Hfind. apply find_some in Hfind as [Hin Hid].
  split; [by apply list_elem_of_In|]. by apply bool_decide_eq_true in Hid.
Qed.

(** C9. With at least two lives, HIT_ANSWER on a wrong answer returns the
    state with one life less, [showingAnswer] set and the bullets cleared;
    [fallingAnswers], [currentProblem], [score], [level], [status],
    [settings], [playerX] and [timeRemaining] are as before, and so is the
    world.  The answer that was hit is still in the list and is still what
    its id finds. *)
Theorem C9_wrong_hit_frame `{MathUtils} (state : GameState) (answerId : string)
    (answer : FallingAnswer.t) (w : World) :
  findAnswer answerId (fallingAnswers state) = Some answer →
  FallingAnswer.isCorrect answer = false →
  2 ≤ lives state →
  let after := (gameReducer state (HIT_ANSWER answerId) w).1 in
  gameReducer state (HIT_ANSWER answerId) w =
    ({| status := status state;
        settings := settings state;
        currentProblem := currentProblem state;
        fallingAnswers := fallingAnswers state;
        bullets := [];
        playerX := playerX state;
        score := score state;
        lives := lives state - 1;
        level := level state;
        showingAnswer := true;
        timeRemaining := timeRemaining state |}, w)
  ∧ answer ∈ fallingAnswers after
  ∧ findAnswer answerId (fallingAnswers after) = Some answer.
Proof.
  intros Hfind Hwrong Hlives after. subst after.
  rewrite (gameReducer_hit_wrong_alive state answerId answer) by done.
  split_and!; [done| |done].
  by apply (findAnswer_elem_of answerId).
Qed.

(** C9 on the sample game: the wrong answer 16 is hit with three lives. *)
Lemma C9_wrong_hit_frame_witness :
  let after :=
    (@gameReducer sampleMathUtils sampleGame (HIT_ANSWER wrongId) sampleWorld).1 in
  lives after = 2
  ∧ fallingAnswers after = fallingAnswers sampleGame
  ∧ FallingAnswer.value <$> findAnswer wrongId (fallingAnswers after) = Some 16.
Proof.
  assert (Hfind : is_Some (findAnswer wrongId (fallingAnswers sampleGame)))
    by (by eexists).
  destruct Hfind as [answer Hfind].
  assert (Hwrong : FallingAnswer.isCorrect answer = false)
    by (by injection Hfind as <-).
  assert (Hlives : 2 ≤ lives sampleGame) by (by vm_compute).
  destruct (@C9_wrong_hit_frame sampleMathUtils sampleGame _ answer sampleWorld
              Hfind Hwrong Hlives) as (Hafter & _ & Hstill).
  intros after. subst after. rewrite Hafter in Hstill |- *. cbn [fst] in *.
  split_and!; [done..|]. rewrite Hstill. by injection Hfind as <-.
Defined.

Lemma saveHighScore_records (settings' : GameSettings) (score' : Z) (w : World) :
  getItem_throws (storage w) = false →
  setItem_throws (storage w) = false →
  (getHighScore settings' w).1 < score' →
  (getHighScore settings' (saveHighScore settings' score' w).2).1 = score'.
Proof.
  intros Hget Hset Hbetter. rewrite saveHighScore_unfold.
  case_decide; [|done]. rewrite Hset. cbn [snd].
  erewrite getHighScore_stored; [|done..].
  rewrite lookup_insert_eq. exact (or_zero_Some score').
Qed.

Lemma saveHighScore_keeps (settings' : GameSettings) (score' : Z) (w : World) :
  score' ≤ (getHighScore settings' w).1 →
  storage (saveHighScore settings' score' w).2 = storage w.
Proof.
  intros Hworse. rewrite saveHighScore_unfold.
  case_decide; [lia|]. apply getHighScores_storage.
Qed.

(** C2. HIT_ANSWER on a wrong answer takes one life, sets [showingAnswer]
    and clears the bullets; when no life would be left it sets [lives] to 0,
    the status to [gameOver] and [showingAnswer], keeps the bullets, and
    offers the score to the store (if the state has settings).  From three lives while playing, three wrong hits in a row
    leave 2 lives, then 1 life, the status still [playing], and then 0 lives
    with the status [gameOver].  On the wrong hit with one life, over a
    store that works, a score above the stored best becomes the stored best,
    and a score not above it leaves the store as it was. *)
Theorem C2_wrong_hit_costs_a_life `{MathUtils} (state : GameState) (answerId : string)
    (answer : FallingAnswer.t) (w : World) :
  findAnswer answerId (fallingAnswers state) = Some answer →
  FallingAnswer.isCorrect answer = false →
  let after := (gameReducer state (HIT_ANSWER answerId) w).1 in
  let w' := (gameReducer state (HIT_ANSWER answerId) w).2 in
  (2 ≤ lives state →
     lives after = lives state - 1 ∧ showingAnswer after = true ∧ bullets after = []
     ∧ status after = status state ∧ w' = w)
  ∧ (lives state ≤ 1 →
     lives after = 0 ∧ status after = gameOver ∧ showingAnswer after = true
     ∧ bullets after = bullets state
     ∧ w' = match settings state with
            | Some settings' => (saveHighScore settings' (score state) w).2
            | None => w
            end)
  ∧ (lives state = 3 → status state = playing →
     ∀ (id2 id3 : string) (answer2 answer3 : FallingAnswer.t) (w2 w3 : World),
       findAnswer id2 (fallingAnswers state) = Some answer2 →
       FallingAnswer.isCorrect answer2 = false →
       findAnswer id3 (fallingAnswers state) = Some answer3 →
       FallingAnswer.isCorrect answer3 = false →
       let second := (gameReducer after (HIT_ANSWER id2) w2).1 in
       let third := (gameReducer second (HIT_ANSWER id3) w3).1 in
       (lives after = 2 ∧ status after = playing)
       ∧ (lives second = 1 ∧ status second = playing)
       ∧ (lives third = 0 ∧ status third = gameOver))
  ∧ (lives state = 1 →
     ∀ settings' : GameSettings,
       settings state = Some settings' →
       getItem_throws (storage w) = false →
       setItem_throws (storage w) = false →
       lives after = 0 ∧ status after = gameOver
       ∧ ((getHighScore settings' w).1 < score state →
          (getHighScore settings' w').1 = score state)
       ∧ (score state ≤ (getHighScore settings' w).1 → storage w' = storage w)).
Proof.
  intros Hfind Hwrong after w'. split_and!.
  - intros Hlives. subst after w'.
    by rewrite (gameReducer_hit_wrong_alive state answerId answer).
  - intros Hlives. subst after w'.
    by rewrite (gameReducer_hit_wrong_fatal state answerId answer).
  - intros Hthree Hplaying id2 id3 answer2 answer3 w2 w3 Hfind2 Hwrong2 Hfind3 Hwrong3.
    subst after.
    rewrite (gameReducer_hit_wrong_alive state answerId answer) by (done || lia).
    cbn [fst].
    rewrite (gameReducer_hit_wrong_alive (wounded state) id2 answer2)
      by (done || cbn; lia).
    cbn [fst].
    rewrite (gameReducer_hit_wrong_fatal (wounded (wounded state)) id3 answer3)
      by (done || cbn; lia).
    cbn. split_and!; (done || lia).
  - intros Hone settings' Hsettings Hget Hset. subst after w'.
    rewrite (gameReducer_hit_wrong_fatal state answerId answer) by (done || lia).
    cbn [fst snd]. unfold scoreOffered. rewrite Hsettings.
    split_and!; [done..| |].
    + by apply saveHighScore_records.
    + by apply saveHighScore_keeps.
Qed.

(** C2 on the sample game: the wrong answer 16 is hit three times from three
    lives; and once on the last life with a score of 20 over an empty
    store. *)
Lemma C2_wrong_hit_costs_a_life_witness :
  let first := (@gameReducer sampleMathUtils sampleGame (HIT_ANSWER wrongId) sampleWorld).1 in
  let second := (@gameReducer sampleMathUtils first (HIT_ANSWER wrongId) sampleWorld).1 in
  let third := (@gameReducer sampleMathUtils second (HIT_ANSWER wrongId) sampleWorld).1 in
  (lives first = 2 ∧ status first = playing)
  ∧ (lives second = 1 ∧ status second = playing)
  ∧ (lives third = 0 ∧ status third = gameOver)
  ∧ (getHighScore sampleSettings
       (@gameReducer sampleMathUtils lastLifeGame (HIT_ANSWER wrongId) sampleWorld).2).1 = 20.
Proof.
  assert (Hfind : is_Some (findAnswer wrongId (fallingAnswers sampleGame)))
    by (by eexists).
  destruct Hfind as [answer Hfind].
  assert (Hwrong : FallingAnswer.isCorrect answer = false)
    by (by injection Hfind as <-).
  destruct (@C2_wrong_hit_costs_a_life sampleMathUtils sampleGame wrongId answer
              sampleWorld Hfind Hwrong) as (_ & _ & Hthree & _).
  destruct (@C2_wrong_hit_costs_a_life sampleMathUtils lastLifeGame wrongId answer
              sampleWorld Hfind Hwrong) as (_ & _ & _ & Hlast).
  intros first second third. split_and!.
  1-6: by apply (Hthree eq_refl eq_refl wrongId wrongId answer answer
                   sampleWorld sampleWorld).
  by apply (Hlast eq_refl sampleSettings).
Defined.

(** ** The shuffle *)

(** The index drawn at step [i] of the shuffle lies in [0, i]. *)
Lemma shuffle_index_le (d : Draw) (i : nat) : (shuffle_index (draw d) i ≤ i)%nat.
Proof.
  pose proof (draw_range d) as Hrange.
  apply bool_decide_unpack in Hrange as [_ Hlt].
  unfold shuffle_index, Math.floor.
  set (c := Qc_of_Z (Z.of_nat i + 1)).
  assert (Hc : (0 < c)%Qc).
  { rewrite <-Z2Qc_inj_0. subst c. apply (Z2Qc_inj_lt 0 (Z.of_nat i + 1)). lia. }
  assert (Hprod : (draw d * c < c)%Qc).
  { rewrite <-(Qcmult_1_l c) at 2. by apply Qcmult_lt_mono_pos_r. }
  assert (Hfloor : Qfloor (draw d * c)%Qc < Z.of_nat i + 1).
  { rewrite Zlt_Qlt. eapply Qle_lt_trans; [apply Qfloor_le|]. exact Hprod. }
  lia.
Qed.

(** At step [i] of the shuffle both indices are inside the array, so the
    swap is the double assignment of the source. *)
Lemma swap_in_shuffle (d : Draw) (i : nat) (a : list Z) :
  (i < length a)%nat →
  ∃ ai aj : Z,
    a !! i = Some ai
    ∧ a !! shuffle_index (draw d) i = Some aj
    ∧ swap i (shuffle_index (draw d) i) a
      = <[shuffle_index (draw d) i := ai]> (<[i := aj]> a).
Proof.
  intros Hi. pose proof (shuffle_index_le d i) as Hj.
  destruct (lookup_lt_is_Some_2 a i Hi) as [ai Hai].
  destruct (lookup_lt_is_Some_2 a (shuffle_index (draw d) i)) as [aj Haj]; [lia|].
  exists ai, aj. unfold swap. by rewrite Hai, Haj.
Qed.

Lemma swap_length (i j : nat) (a : list Z) : length (swap i j a) = length a.
Proof.
  unfold swap. destruct (a !! j), (a !! i); by rewrite ?length_insert.
Qed.

Lemma swap_Permutation (i j : nat) (a : list Z) : swap i j a ≡ₚ a.
Proof.
  unfold swap.
  destruct (a !! j) as [aj|] eqn:Hj; [|done].
  destruct (a !! i) as [ai|] eqn:Hi; [|done].
  pose proof (lookup_lt_Some _ _ _ Hj) as Hjlt.
  pose proof (lookup_lt_Some _ _ _ Hi) as Hilt.
  apply Permutation_inj. split; [by rewrite !length_insert|].
  exists (λ k, if decide (k = j) then i else if decide (k = i) then j else k).
  split.
  - intros k1 k2. repeat case_decide; congruence.
  - intros k. repeat case_decide; subst.
    + rewrite list_lookup_insert_eq by (by rewrite length_insert). done.
    + rewrite list_lookup_insert_ne by done.
      rewrite list_lookup_insert_eq by done. done.
    + by rewrite !list_lookup_insert_ne by done.
Qed.

Lemma shuffle_from_Permutation (i : nat) (a : list Z) (rng : Rng) :
  (shuffle_from i a rng).1 ≡ₚ a.
Proof.
  revert a rng. induction i as [|i IH]; intros a rng; [done|].
  cbn [shuffle_from Math_random]. rewrite IH. apply swap_Permutation.
Qed.

Lemma shuffle_Permutation (a : list Z) (rng : Rng) : (shuffle a rng).1 ≡ₚ a.
Proof. apply shuffle_from_Permutation. Qed.

(** ** Placing the answers *)

Lemma placeAnswers_lookup (spacing : Qc) (correct : Z) (values : list Z) :
  ∀ (index : nat) (w : World) (k : nat) (a : FallingAnswer.t),
    (placeAnswers spacing correct index values w).1 !! k = Some a →
    values !! k = Some (FallingAnswer.value a)
    ∧ FallingAnswer.id a = answerId (clock w k) (index + k)
    ∧ FallingAnswer.x a = (spacing * Qc_of_Z (Z.of_nat (index + k) + 1))%Qc
    ∧ FallingAnswer.y a = Qc_of_Z 100
    ∧ FallingAnswer.speed a = Qc_of_Z 0
    ∧ FallingAnswer.isCorrect a = bool_decide (FallingAnswer.value a = correct).
Proof.
  induction values as [|value values IH]; intros index w k a; [done|].
  cbn [placeAnswers Date_now].
  destruct (placeAnswers spacing correct (S index) values _) as [answers w'] eqn:Hrest.
  cbn [fst]. destruct k as [|k].
  - intros [= <-]. cbn. by rewrite Nat.add_0_r.
  - cbn [lookup list_lookup]. intros Hk.
    specialize (IH (S index) (Date_now w).2 k a).
    cbn [Date_now snd] in IH. rewrite Hrest in IH.
    specialize (IH Hk). cbn [clock] in IH.
    by replace (index + S k)%nat with (S index + k)%nat by lia.
Qed.

Lemma placeAnswers_values (spacing : Qc) (correct : Z) (values : list Z) :
  ∀ (index : nat) (w : World),
    FallingAnswer.value <$> (placeAnswers spacing correct index values w).1 = values.
Proof.
  induction values as [|value values IH]; intros index w; [done|].
  cbn [placeAnswers Date_now].
  destruct (placeAnswers spacing correct (S index) values _) as [answers w'] eqn:Hrest.
  cbn. f_equal. specialize (IH (S index) (Date_now w).2).
  cbn [Date_now snd] in IH. by rewrite Hrest in IH.
Qed.

Lemma placeAnswers_length (spacing : Qc) (correct : Z) (values : list Z)
    (index : nat) (w : World) :
  length (placeAnswers spacing correct index values w).1 = length values.
Proof.
  by rewrite <-(placeAnswers_values spacing correct values index w) at 2;
    rewrite length_fmap.
Qed.

Lemma placeAnswers_correct_count (spacing : Qc) (correct : Z) (values : list Z) :
  ∀ (index : nat) (w : World),
    length (filter (λ a, FallingAnswer.isCorrect a = true)
              (placeAnswers spacing correct index values w).1)
    = length (filter (λ v, v = correct) values).
Proof.
  induction values as [|value values IH]; intros index w; [done|].
  cbn [placeAnswers Date_now].
  destruct (placeAnswers spacing correct (S index) values _) as [answers w'] eqn:Hrest.
  cbn [fst]. specialize (IH (S index) (Date_now w).2).
  cbn [Date_now snd] in IH. rewrite Hrest in IH. cbn [fst] in IH.
  rewrite !filter_cons. cbn [FallingAnswer.isCorrect].
  destruct (decide (value = correct)) as [Heq|Hne].
  - rewrite bool_decide_eq_true_2 by done. rewrite decide_True by done.
    cbn [length]. by rewrite IH.
  - rewrite bool_decide_eq_false_2 by done. rewrite decide_False by done.
    apply IH.
Qed.

(** ** New problems *)

Lemma generateNewProblem_unfold `{MathUtils} (settings' : GameSettings) (w : World) :
  let generated :=
    generateProblem (operation settings') (specificNumber settings') (random w) in
  let correct := correctAnswer generated.1 in
  let wrong := generateWrongAnswers correct 3 generated.2 in
  let shuffled := shuffle (correct :: wrong.1) wrong.2 in
  let spacing := (GAME_WIDTH / Qc_of_Z (Z.of_nat (length shuffled.1) + 1))%Qc in
  let placed := placeAnswers spacing correct 0 shuffled.1 (with_random shuffled.2 w) in
  generateNewProblem settings' w = ((generated.1, placed.1), placed.2).
Proof.
  unfold generateNewProblem.
  destruct (generateProblem _ _ _) as [problem rng1]. cbn [fst snd].
  destruct (generateWrongAnswers _ _ _) as [wrong rng2]. cbn [fst snd].
  destruct (shuffle _ _) as [shuffled rng3]. cbn [fst snd].
  by destruct (placeAnswers _ _ _ _ _) as [answers w'].
Qed.

Lemma filter_eq_absent (correct : Z) (values : list Z) :
  correct ∉ values → filter (λ v, v = correct) values = [].
Proof.
  intros Habsent. induction values as [|v values IH]; [done|].
  apply not_elem_of_cons in Habsent as [Hne Habsent].
  rewrite filter_cons_False by congruence. by apply IH.
Qed.

Section Generated.
Context `{MathUtilsContract}.

Lemma generateNewProblem_shuffled (settings' : GameSettings) (w : World)
    (problem : MathProblem) (answers : list FallingAnswer.t) (w' : World) :
  generateNewProblem settings' w = ((problem, answers), w') →
  ∃ (values : list Z) (w1 : World),
    answers = (placeAnswers (GAME_WIDTH / Qc_of_Z 5)%Qc (correctAnswer problem)
                 0 values w1).1
    ∧ length values = 4%nat
    ∧ length (filter (λ v, v = correctAnswer problem) values) = 1%nat.
Proof.
  rewrite generateNewProblem_unfold. cbn zeta.
  set (generated := generateProblem _ _ _).
  set (wrong := generateWrongAnswers _ _ _).
  set (shuffled := shuffle _ _).
  intros [= <- <- <-].
  assert (Hperm : shuffled.1 ≡ₚ correctAnswer generated.1 :: wrong.1)
    by apply shuffle_Permutation.
  assert (Hlength : length shuffled.1 = 4%nat).
  { rewrite Hperm. cbn [length]. subst wrong. by rewrite wrong_count. }
  exists shuffled.1, (with_random shuffled.2 w). split_and!.
  - by rewrite Hlength.
  - done.
  - rewrite Hperm, filter_cons_True by done.
    rewrite filter_eq_absent; [done|]. subst wrong. apply wrong_not_correct.
Qed.

Lemma generateNewProblem_candidateSet (settings' : GameSettings) (w : World)
    (problem : MathProblem) (answers : list FallingAnswer.t) (w' : World) :
  generateNewProblem settings' w = ((problem, answers), w') →
  candidateSet problem answers.
Proof.
  intros Hgen.
  apply generateNewProblem_shuffled in Hgen
    as (values & w1 & -> & Hlength & Hcount).
  split_and!.
  - by rewrite placeAnswers_length.
  - by rewrite placeAnswers_correct_count.
  - intros index a Hlookup.
    apply placeAnswers_lookup in Hlookup as (_ & _ & Hx & Hy & _ & Hcorrect).
    by rewrite Nat.add_0_l in Hx.
Qed.

End Generated.

(** ** Candidate sets *)

(** C7. Provided [generateWrongAnswers] returns three values other than the
    correct answer, every candidate set the engine produces (by
    [generateNewProblem], hence at START_GAME, after a correct hit and at
    NEXT_PROBLEM) has exactly 4 answers, exactly one of them with
    [isCorrect] true, the answer at [index] at [x = GAME_WIDTH / 5 * (index + 1)]
    and [y = 100], and [isCorrect] true precisely for the answer whose value
    is the [correctAnswer] of the problem shown. *)
Theorem C7_candidate_sets `{MathUtilsContract} :
  (∀ (settings' : GameSettings) (w : World),
     candidateSet (generateNewProblem settings' w).1.1
                  (generateNewProblem settings' w).1.2)
  ∧ (∀ (state : GameState) (settings' : GameSettings) (w : World),
       hasCandidateSet (gameReducer state (START_GAME settings') w).1)
  ∧ (∀ (state : GameState) (answerId : string) (answer : FallingAnswer.t)
       (settings' : GameSettings) (w : World),
       findAnswer answerId (fallingAnswers state) = Some answer →
       FallingAnswer.isCorrect answer = true →
       settings state = Some settings' →
       hasCandidateSet (gameReducer state (HIT_ANSWER answerId) w).1)
  ∧ (∀ (state : GameState) (settings' : GameSettings) (w : World),
       settings state = Some settings' →
       hasCandidateSet (gameReducer state NEXT_PROBLEM w).1).
Proof.
  split_and!.
  - intros settings' w.
    destruct (generateNewProblem settings' w) as [[problem answers] w'] eqn:Hgen.
    by apply generateNewProblem_candidateSet in Hgen.
  - intros state settings' w. unfold gameReducer.
    destruct (generateNewProblem settings' w) as [[problem answers] w'] eqn:Hgen.
    apply generateNewProblem_candidateSet in Hgen. by exists problem.
  - intros state answerId answer settings' w Hfind Hcorrect Hsettings.
    unfold gameReducer. rewrite Hfind, Hcorrect, Hsettings.
    destruct (generateNewProblem settings' w) as [[problem answers] w'] eqn:Hgen.
    apply generateNewProblem_candidateSet in Hgen. by exists problem.
  - intros state settings' w Hsettings. unfold gameReducer. rewrite Hsettings.
    destruct (generateNewProblem settings' w) as [[problem answers] w'] eqn:Hgen.
    apply generateNewProblem_candidateSet in Hgen. by exists problem.
Qed.

Lemma sampleMathUtilsContract : @MathUtilsContract sampleMathUtils.
Proof.
  split; intros correct count rng; cbn.
  - by rewrite length_map, length_seq.
  - rewrite list_elem_of_In, in_map_iff. intros (k & Hk & _). lia.
Qed.

(** C7 with the sample generator: the game started in [sampleWorld] shows a
    candidate set, and so does the sample game after its correct answer is
    hit. *)
Lemma C7_candidate_sets_witness :
  hasCandidateSet
    (@gameReducer sampleMathUtils createInitialState (START_GAME sampleSettings)
       sampleWorld).1
  ∧ hasCandidateSet
      (@gameReducer sampleMathUtils sampleGame (HIT_ANSWER correctId) sampleWorld).1.
Proof.
  destruct (@C7_candidate_sets sampleMathUtils sampleMathUtilsContract)
    as (_ & Hstart & Hhit & _).
  split; [apply Hstart|].
  assert (Hfind : is_Some (findAnswer correctId (fallingAnswers sampleGame)))
    by (by eexists).
  destruct Hfind as [answer Hfind].
  apply (Hhit sampleGame correctId answer sampleSettings sampleWorld Hfind).
  - by injection Hfind as <-.
  - reflexivity.
Defined.

(** ** Answer ids *)

Lemma dashless_app_dash (a b : string) : dashless (a +:+ String "-"%char b) = false.
Proof. induction a as [|c a IH]; simpl; [done|]. by destruct (Ascii.eqb c "-"%char). Qed.

Lemma split_at_last_dash (a a' b b' : string) :
  dashless b = true → dashless b' = true →
  a +:+ String "-"%char b = a' +:+ String "-"%char b' → a = a' ∧ b = b'.
Proof.
  intros Hb Hb'. revert a'. induction a as [|c a IH]; intros [|c' a']; simpl.
  - by intros [= ->].
  - intros [= <- ->]. by rewrite dashless_app_dash in Hb.
  - intros [= -> <-]. by rewrite dashless_app_dash in Hb'.
  - intros [= -> Hrest]. apply IH in Hrest as [-> ->]. done.
Qed.

Lemma pretty_N_go_dashless (x : N) (s : string) :
  dashless s = true → dashless (pretty_N_go x s) = true.
Proof.
  revert s. induction (N.lt_wf_0 x) as [x _ IH]; intros s Hs.
  destruct (decide (x = 0%N)) as [->|Hpos]; [by rewrite pretty_N_go_0|].
  rewrite pretty_N_go_step by lia. apply IH.
  - apply N.div_lt; lia.
  - simpl. unfold pretty_N_char. by repeat case_match.
Qed.

Lemma pretty_nat_dashless (n : nat) : dashless (pretty n) = true.
Proof.
  unfold pretty, pretty_nat, pretty, pretty_N.
  case_decide; [done|]. by apply pretty_N_go_dashless.
Qed.

(** An answer id determines the clock reading and the index it was made of. *)
Lemma answerId_inj (now now' : Z) (index index' : nat) :
  answerId now index = answerId now' index' → now = now' ∧ index = index'.
Proof.
  unfold answerId. intros Heq.
  assert (Hsplit : pretty now +:+ String "-"%char (pretty index)
                   = pretty now' +:+ String "-"%char (pretty index')).
  { simpl in Heq. by injection Heq. }
  apply split_at_last_dash in Hsplit as [Hnow Hindex];
    [|apply pretty_nat_dashless..].
  split; [by apply (inj pretty)|by apply (inj pretty)].
Qed.

Lemma placeAnswers_ids_NoDup (spacing : Qc) (correct : Z) (values : list Z)
    (index : nat) (w : World) :
  NoDup (FallingAnswer.id <$> (placeAnswers spacing correct index values w).1).
Proof.
  apply NoDup_alt. intros i j answerId'.
  rewrite !list_lookup_fmap. intros Hi Hj.
  apply fmap_Some in Hi as (a & Hi & ->). apply fmap_Some in Hj as (b & Hj & Hid).
  apply placeAnswers_lookup in Hi as (_ & Hida & _).
  apply placeAnswers_lookup in Hj as (_ & Hidb & _).
  rewrite Hida, Hidb in Hid. apply answerId_inj in Hid as [_ Hindex]. lia.
Qed.

Lemma findAnswer_NoDup (answers : list FallingAnswer.t) (answer : FallingAnswer.t) :
  NoDup (FallingAnswer.id <$> answers) → answer ∈ answers →
  findAnswer (FallingAnswer.id answer) answers = Some answer.
Proof.
  unfold findAnswer. induction answers as [|a answers IH]; intros Hnodup Hin.
  - by apply elem_of_nil in Hin.
  - cbn [fmap list_fmap] in Hnodup. apply NoDup_cons in Hnodup as [Hfresh Hnodup].
    cbn [find]. apply elem_of_cons in Hin as [->|Hin].
    + by rewrite bool_decide_eq_true_2.
    + rewrite bool_decide_eq_false_2; [by apply IH|].
      intros Hid. apply Hfresh. rewrite Hid. by apply list_elem_of_fmap_2.
Qed.

Lemma findAnswer_None (answerId' : string) (answers : list FallingAnswer.t) :
  (∀ a, a ∈ answers → FallingAnswer.id a ≠ answerId') →
  findAnswer answerId' answers = None.
Proof.
  unfold findAnswer. induction answers as [|a answers IH]; intros Hfresh; [done|].
  cbn [find]. rewrite bool_decide_eq_false_2 by (apply Hfresh; left).
  apply IH. intros b Hb. apply Hfresh. by right.
Qed.

(** ** HIT_ANSWER on the correct answer *)

Lemma level_floor (n : Z) : Math.floor (Qc_of_Z n / Qc_of_Z 50)%Qc = n / 50.
Proof.
  unfold Math.floor. rewrite Zdiv_Qdiv. apply Qfloor_comp.
  unfold Qcdiv, Qcmult, Qcinv, Q2Qc. cbn [this Qc_of_Z].
  by rewrite !Qred_correct.
Qed.

Lemma gameReducer_hit_correct `{MathUtils} (state : GameState) (hitId : string)
    (answer : FallingAnswer.t) (settings' : GameSettings) (w : World) :
  findAnswer hitId (fallingAnswers state) = Some answer →
  FallingAnswer.isCorrect answer = true →
  settings state = Some settings' →
  gameReducer state (HIT_ANSWER hitId) w =
    ({| status := status state;
        settings := settings state;
        currentProblem := Some (generateNewProblem settings' w).1.1;
        fallingAnswers := (generateNewProblem settings' w).1.2;
        bullets := [];
        playerX := playerX state;
        score := score state + 10;
        lives := lives state;
        level := (score state + 10) / 50 + 1;
        showingAnswer := showingAnswer state;
        timeRemaining := timeRemaining state |},
     (generateNewProblem settings' w).2).
Proof.
  intros Hfind Hcorrect Hsettings. unfold gameReducer.
  rewrite Hfind, Hcorrect, Hsettings, level_floor.
  by destruct (generateNewProblem settings' w) as [[problem answers] w'].
Qed.

Section CorrectHits.
Context `{MathUtilsContract}.





End CorrectHits.



(** ** The score over a whole game *)

(** The score after a dispatch, in any state. *)
Lemma gameReducer_score `{MathUtils} (state : GameState) (action : GameAction)
    (w : World) :
  score (gameReducer state action w).1 =
    match action with
    | START_GAME _ | RETURN_TO_MENU => 0
    | HIT_ANSWER hitId =>
        match findAnswer hitId (fallingAnswers state), settings state with
        | Some answer, Some _ =>
            if FallingAnswer.isCorrect answer then score state + 10 else score state
        | _, _ => score state
        end
    | _ => score state
    end.
Proof.
  destruct action as [settings'| | | | | |hitId| | | | |]; unfold gameReducer;
    try done.
  - by destruct (generateNewProblem settings' w) as [[problem answers] w'].
  - by case_decide.
  - by case_decide.
  - repeat case_decide; done.
  - destruct (findAnswer hitId (fallingAnswers state)) as [answer|]; [|by destruct (settings state)].
    destruct (FallingAnswer.isCorrect answer).
    + destruct (settings state) as [settings'|]; [|done].
      by destruct (generateNewProblem settings' w) as [[problem answers] w'].
    + by destruct (settings state); case_decide.
  - destruct (settings state) as [settings'|]; [|done].
    by destruct (generateNewProblem settings' w) as [[problem answers] w'].
Qed.

(** Answers are only ever on screen together with the settings they were
    generated from. *)
Lemma gameReducer_answers_settings `{MathUtils} (state : GameState)
    (action : GameAction) (w : World) :
  (settings state = None → fallingAnswers state = []) →
  settings (gameReducer state action w).1 = None →
  fallingAnswers (gameReducer state action w).1 = [].
Proof.
  intros Hstate.
  destruct action as [settings'| | | | | |hitId|missId| | | |]; unfold gameReducer;
    try done.
  - by destruct (generateNewProblem settings' w) as [[problem answers] w'].
  - by case_decide.
  - by case_decide.
  - repeat case_decide; done.
  - destruct (findAnswer hitId (fallingAnswers state)) as [answer|]; [|exact Hstate].
    destruct (FallingAnswer.isCorrect answer).
    + destruct (settings state) as [settings'|] eqn:Hsettings; [|by intros _; apply Hstate].
      by destruct (generateNewProblem settings' w) as [[problem answers] w'].
    + by case_decide.
  - cbn. intros Hnone. by rewrite Hstate.
  - destruct (settings state) as [settings'|] eqn:Hsettings; [|by intros _; apply Hstate].
    by destruct (generateNewProblem settings' w) as [[problem answers] w'].
Qed.

Lemma reachable_invariant `{MathUtils} (state : GameState) :
  reachable state →
  (∃ k : Z, 0 ≤ k ∧ score state = 10 * k)
  ∧ (settings state = None → fallingAnswers state = []).
Proof.
  induction 1 as [|state action w _ [(k & Hk & Hscore) Hanswers]].
  - split; [by exists 0|done].
  - split; [|by apply gameReducer_answers_settings].
    rewrite gameReducer_score.
    assert (Hsame : ∃ k' : Z, 0 ≤ k' ∧ score state = 10 * k') by (by exists k).
    assert (Hzero : ∃ k' : Z, 0 ≤ k' ∧ 0 = 10 * k') by (by exists 0).
    assert (Hmore : ∃ k' : Z, 0 ≤ k' ∧ score state + 10 = 10 * k')
      by (exists (k + 1); lia).
    destruct action; try done.
    destruct (findAnswer _ _) as [answer|], (settings state); try done.
    by destruct (FallingAnswer.isCorrect answer).
Qed.

(** C10. In every reachable state the score is a non-negative multiple of
    10.  It is 0 in the initial state; a dispatch sets it to 0 for START_GAME
    and RETURN_TO_MENU, adds exactly 10 for a HIT_ANSWER whose id finds a
    correct answer, and leaves it as it is for every other action. *)
Theorem C10_score_multiple_of_ten `{MathUtils} (state : GameState) :
  reachable state →
  (∃ k : Z, 0 ≤ k ∧ score state = 10 * k)
  ∧ score createInitialState = 0
  ∧ ∀ (action : GameAction) (w : World),
      score (gameReducer state action w).1 =
        match action with
        | START_GAME _ | RETURN_TO_MENU => 0
        | HIT_ANSWER hitId =>
            match findAnswer hitId (fallingAnswers state) with
            | Some answer =>
                if FallingAnswer.isCorrect answer then score state + 10
                else score state
            | None => score state
            end
        | _ => score state
        end.
Proof.
  intros Hreachable.
  destruct (reachable_invariant state Hreachable) as [Hmultiple Hanswers].
  split_and!; [done..|].
  intros action w. rewrite gameReducer_score.
  destruct action as [| | | | | |hitId| | | | |]; try done.
  destruct (findAnswer hitId (fallingAnswers state)) as [answer|] eqn:Hfind; [|done].
  destruct (settings state) as [settings'|]; [done|].
  rewrite Hanswers in Hfind by done. done.
Qed.

(** C10 on the sample game after a correct hit: the score is 10, and a
    further correct hit makes it 20. *)
Lemma C10_score_multiple_of_ten_witness :
  let state :=
    (@gameReducer sampleMathUtils sampleGame (HIT_ANSWER correctId) sampleWorld).1 in
  score state = 10 * 1
  ∧ score (@gameReducer sampleMathUtils state (HIT_ANSWER correctId) sampleWorld).1 = 20
  ∧ score (@gameReducer sampleMathUtils state RETURN_TO_MENU sampleWorld).1 = 0.
Proof.
  intros state.
  assert (Hreachable : @reachable sampleMathUtils state).
  { apply reachable_dispatch.
    exact (@reachable_dispatch sampleMathUtils createInitialState
             (START_GAME sampleSettings) sampleWorld reachable_initial). }
  destruct (@C10_score_multiple_of_ten sampleMathUtils state Hreachable)
    as (_ & _ & Hstep).
  split_and!.
  - reflexivity.
  - by rewrite (Hstep (HIT_ANSWER correctId) sampleWorld).
  - by rewrite (Hstep RETURN_TO_MENU sampleWorld).
Defined.

(** ** HIT_ANSWER twice *)

(** The ids of freshly generated answers are made of the clock readings of
    the dispatch that generates them. *)
Lemma generateNewProblem_ids `{MathUtils} (settings' : GameSettings) (w : World)
    (a : FallingAnswer.t) :
  a ∈ (generateNewProblem settings' w).1.2 →
  ∃ k : nat, FallingAnswer.id a = answerId (clock w k) k.
Proof.
  rewrite generateNewProblem_unfold. cbn zeta. cbn [fst snd].
  intros Hin. apply list_elem_of_lookup in Hin as [k Hk].
  apply placeAnswers_lookup in Hk as (_ & Hid & _). by exists k.
Qed.

Lemma gameReducer_hit_fatal_again `{MathUtils} (state : GameState) (hitId : string)
    (answer : FallingAnswer.t) (w : World) :
  findAnswer hitId (fallingAnswers state) = Some answer →
  FallingAnswer.isCorrect answer = false →
  (gameReducer (defeated state) (HIT_ANSWER hitId) w).1 = defeated state.
Proof.
  intros Hfind Hwrong.
  by rewrite (gameReducer_hit_wrong_fatal (defeated state) hitId answer).
Qed.

(** C4, as the claim states it, fails: in the sample game, with three lives,
    HIT_ANSWER on the wrong answer 16 leaves 2 lives and keeps the answer on
    screen, and the same HIT_ANSWER again leaves 1 life. *)
Lemma C4_second_wrong_hit_takes_a_life :
  let first := (@gameReducer sampleMathUtils sampleGame (HIT_ANSWER wrongId) sampleWorld).1 in
  let second := (@gameReducer sampleMathUtils first (HIT_ANSWER wrongId) sampleWorld).1 in
  lives first = 2 ∧ lives second = 1 ∧ second ≠ first.
Proof.
  intros first second. split_and!; [done..|].
  intros Heq. by apply (f_equal lives) in Heq.
Qed.

(** C4, amended. HIT_ANSWER with an id that is absent from the answers
    returns the state and the world as they are; so a second HIT_ANSWER with
    the same id is ignored whenever the first one took that id off the list.
    A correct hit does so unless a fresh answer is given the same id again:
    fresh ids are made of the clock readings of that dispatch, so it is
    enough that the id hit was made of another reading.  After the wrong hit
    that ends the game the second dispatch returns an equal state.  After a
    wrong hit that leaves lives the answer is still on the list, and the
    second dispatch takes one more life. *)
Theorem C4_second_hit `{MathUtils} (state : GameState) (hitId : string)
    (w1 w2 : World) :
  let first := (gameReducer state (HIT_ANSWER hitId) w1).1 in
  let second := (gameReducer first (HIT_ANSWER hitId) w2).1 in
  (findAnswer hitId (fallingAnswers state) = None →
     gameReducer state (HIT_ANSWER hitId) w1 = (state, w1))
  ∧ (findAnswer hitId (fallingAnswers first) = None →
     gameReducer first (HIT_ANSWER hitId) w2 = (first, w2))
  ∧ (∀ answer : FallingAnswer.t,
       findAnswer hitId (fallingAnswers state) = Some answer →
       FallingAnswer.isCorrect answer = true →
       (∀ k : nat, hitId ≠ answerId (clock w1 k) k) →
       gameReducer first (HIT_ANSWER hitId) w2 = (first, w2))
  ∧ (∀ (answer : FallingAnswer.t) (now : Z) (index : nat),
       findAnswer hitId (fallingAnswers state) = Some answer →
       FallingAnswer.isCorrect answer = true →
       hitId = answerId now index →
       (∀ k : nat, clock w1 k ≠ now) →
       gameReducer first (HIT_ANSWER hitId) w2 = (first, w2))
  ∧ (∀ answer : FallingAnswer.t,
       findAnswer hitId (fallingAnswers state) = Some answer →
       FallingAnswer.isCorrect answer = false →
       lives state ≤ 1 →
       second = first)
  ∧ (∀ answer : FallingAnswer.t,
       findAnswer hitId (fallingAnswers state) = Some answer →
       FallingAnswer.isCorrect answer = false →
       2 ≤ lives state →
       findAnswer hitId (fallingAnswers first) = Some answer
       ∧ lives first = lives state - 1
       ∧ lives second = (if decide (3 ≤ lives state) then lives state - 2 else 0)
       ∧ second ≠ first).
Proof.
  intros first second.
  assert (Hfresh : ∀ answer : FallingAnswer.t,
    findAnswer hitId (fallingAnswers state) = Some answer →
    FallingAnswer.isCorrect answer = true →
    (∀ k : nat, hitId ≠ answerId (clock w1 k) k) →
    gameReducer first (HIT_ANSWER hitId) w2 = (first, w2)).
  { intros answer Hfind Hcorrect Hother. subst first.
    destruct (settings state) as [settings'|] eqn:Hsettings.
    - rewrite (gameReducer_hit_correct state hitId answer settings') by done.
      cbn [fst]. apply gameReducer_hit_absent. cbn [fallingAnswers].
      apply findAnswer_None. intros a Ha Hid.
      apply generateNewProblem_ids in Ha as [k Hk].
      apply (Hother k). by rewrite <-Hid, Hk.
    - assert (Hsame : gameReducer state (HIT_ANSWER hitId) w1 = (state, w1)).
      { unfold gameReducer. by rewrite Hfind, Hcorrect, Hsettings. }
      rewrite Hsame. cbn [fst].
      unfold gameReducer. by rewrite Hfind, Hcorrect, Hsettings. }
  split_and!.
  - apply gameReducer_hit_absent.
  - apply gameReducer_hit_absent.
  - exact Hfresh.
  - intros answer now index Hfind Hcorrect -> Hclock.
    apply (Hfresh answer Hfind Hcorrect).
    intros k Hid. apply answerId_inj in Hid as [Hnow _]. by apply (Hclock k).
  - intros answer Hfind Hwrong Hlives. subst second first.
    rewrite (gameReducer_hit_wrong_fatal state hitId answer) by done.
    cbn [fst]. by apply (gameReducer_hit_fatal_again state hitId answer).
  - intros answer Hfind Hwrong Hlives. subst second first.
    rewrite (gameReducer_hit_wrong_alive state hitId answer) by done.
    cbn [fst]. split_and!; [done..| |].
    + case_decide.
      * rewrite (gameReducer_hit_wrong_alive (wounded state) hitId answer)
          by (done || cbn; lia).
        cbn. lia.
      * by rewrite (gameReducer_hit_wrong_fatal (wounded state) hitId answer)
          by (done || cbn; lia).
    + intros Heq. apply (f_equal lives) in Heq. revert Heq.
      destruct (decide (3 ≤ lives state)).
      * rewrite (gameReducer_hit_wrong_alive (wounded state) hitId answer)
          by (done || cbn; lia).
        cbn. lia.
      * rewrite (gameReducer_hit_wrong_fatal (wounded state) hitId answer)
          by (done || cbn; lia).
        cbn. lia.
Qed.

(** C4 on the sample game: its correct answer is hit five seconds after the
    start, and the same HIT_ANSWER again changes nothing. *)
Lemma C4_second_hit_witness :
  let first := (@gameReducer sampleMathUtils sampleGame (HIT_ANSWER correctId) laterWorld).1 in
  score first = 10
  ∧ @gameReducer sampleMathUtils first (HIT_ANSWER correctId) sampleWorld
    = (first, sampleWorld).
Proof.
  assert (Hfind : is_Some (findAnswer correctId (fallingAnswers sampleGame)))
    by (by eexists).
  destruct Hfind as [answer Hfind].
  assert (Hcorrect : FallingAnswer.isCorrect answer = true)
    by (by injection Hfind as <-).
  destruct (@C4_second_hit sampleMathUtils sampleGame correctId laterWorld sampleWorld)
    as (_ & _ & _ & Hfresh & _).
  split; [reflexivity|].
  apply (Hfresh answer 1700000000000 0%nat Hfind Hcorrect eq_refl).
  intros k. cbn [clock laterWorld]. lia.
Defined.


(** * Further properties *)

(** ** Rational arithmetic *)

Lemma eq_Qeq (x y : Q) : x = y → (x == y)%Q.
Proof. by intros ->. Qed.

(** Linear arithmetic on [Qc], through [Q]. *)
Ltac qc_lra :=
  repeat match goal with
  | H : @eq Qc ?x ?y |- _ => apply (f_equal this), eq_Qeq in H
  | |- @eq Qc _ _ => apply Qc_is_canon
  end;
  unfold Qcle, Qclt, Qcminus, Qcplus, Qcopp, Qcmult, Q2Qc, Qc_of_Z, inject_Z in *;
  cbn [this] in *;
  rewrite ?Qred_correct in *;
  lra.

(** The case analysis that [gameReducer] makes. *)
Ltac reducer_cases :=
  unfold gameReducer;
  repeat match goal with
  | Hs : settings ?s = _ |- context [settings ?s] => rewrite Hs
  | |- context [generateNewProblem ?c ?w] =>
      destruct (generateNewProblem c w) as [[? ?] ?]
  | |- context [findAnswer ?i ?l] => destruct (findAnswer i l) as [?|] eqn:?
  | |- context [FallingAnswer.isCorrect ?a] =>
      destruct (FallingAnswer.isCorrect a) eqn:?
  | |- context [match settings ?s with _ => _ end] =>
      destruct (settings s) as [?|] eqn:?
  | |- context [decide ?P] => destruct (decide P)
  end;
  cbn [fst snd].

(** ** What every reachable state looks like *)

Lemma clamp_range (x lo hi : Qc) : (lo ≤ hi)%Qc → (lo ≤ clamp x lo hi ≤ hi)%Qc.
Proof.
  intros Hbounds. unfold clamp. repeat case_decide; split; try done;
    by (apply Qcnot_lt_le || apply Qcle_refl).
Qed.

Lemma createInitialState_wellFormed : wellFormed createInitialState.
Proof.
  unfold wellFormed, blank. cbn. split_and!; done.
Qed.

Lemma bulletInPlay_shot (bullet_id : string) (x : Qc) :
  (Qc_of_Z 30 ≤ x ≤ Qc_of_Z 770)%Qc →
  bulletInPlay
    {| Bullet.id := bullet_id; Bullet.x := x;
       Bullet.y := (GAME_HEIGHT - PLAYER_SIZE - Qc_of_Z 10)%Qc;
       Bullet.speed := BULLET_SPEED |}.
Proof. intros [Hx30 Hx770]. unfold bulletInPlay, BULLET_SPEED. cbn. by split_and!. Qed.

Lemma bulletInPlay_moved (bullets' : list Bullet.t) :
  Forall bulletInPlay bullets' →
  Forall bulletInPlay
    (filter (λ bullet, 0 < Bullet.y bullet)%Qc
       (map (λ bullet,
               {| Bullet.id := Bullet.id bullet;
                  Bullet.x := Bullet.x bullet;
                  Bullet.y := (Bullet.y bullet - BULLET_SPEED)%Qc;
                  Bullet.speed := Bullet.speed bullet |})
            bullets')).
Proof.
  rewrite !Forall_forall. intros Hbullets b Hb.
  apply list_elem_of_filter in Hb as [_ Hb].
  apply list_elem_of_In, in_map_iff in Hb as (b0 & <- & Hb0).
  apply list_elem_of_In in Hb0.
  destruct (Hbullets b0 Hb0) as ([Hx30 Hx770] & Hy & Hspeed).
  unfold bulletInPlay, BULLET_SPEED. cbn. split_and!; try done. qc_lra.
Qed.

Lemma gameReducer_wellFormed `{MathUtils} (state : GameState) (action : GameAction)
    (w : World) :
  wellFormed state → wellFormed (gameReducer state action w).1.
Proof.
  intros ([Hship30 Hship770] & [Hlives0 Hlives3] & Hdead & Hlevel & Hbullets
          & Hblank & Hproblem).
  assert (Hshot := bulletInPlay_shot).
  assert (Hmoved := bulletInPlay_moved (bullets state) Hbullets).
  destruct action as [settings'|x| | |deltaTime|deltaTime|hitId|missId| | | |];
    [| |destruct (decide (status state = playing)) as [Hplaying|Hidle]|..].
  2: { rewrite gameReducer_move_player. unfold wellFormed, movedTo, blank in *. cbn.
       split_and!; try done. all: by apply clamp_range, Z2Qc_inj_le. }
  all: destruct (settings state) as [settings0|] eqn:Hsettings;
    [destruct (Hproblem (ltac:(eauto))) as [problem0 Hproblem0]; clear Hblank
    |destruct (Hblank eq_refl)
       as (Hidle' & Hnoproblem & Hnoanswers & Hnobullets & Hzero & Hthree & Hone & Hnotime)].
  all: reducer_cases; unfold wellFormed, blank; cbn;
    rewrite ?Hsettings, ?level_floor; cbn.
  all: split_and!.
  all: try (done || lia || (by eauto) || (by vm_compute) || (intros; lia)).
  all: try (apply Forall_app; split; [done|]; apply Forall_singleton; by apply Hshot).
  all: try (intros _; split_and!; (done || congruence)).
  all: intros _; rewrite ?Hnobullets, ?Hnoanswers in *; by split_and!.
Qed.

Lemma reachable_wellFormed `{MathUtils} (state : GameState) :
  reachable state → wellFormed state.
Proof.
  induction 1 as [|state action w _ IH];
    [apply createInitialState_wellFormed|by apply gameReducer_wellFormed].
Qed.

Lemma sampleGame_reachable : @reachable sampleMathUtils sampleGame.
Proof.
  exact (@reachable_dispatch sampleMathUtils createInitialState
           (START_GAME sampleSettings) sampleWorld reachable_initial).
Qed.

(** X1. Whatever actions are dispatched, with numbers as the targets of
    MOVE_PLAYER, the ship is inside the play area: [30 <= playerX <= 770].
    (The targets are rationals here.  A target of [NaN], which [Math.max]
    and [Math.min] return as it is, is outside this statement.) *)
Theorem X1_ship_stays_in_range `{MathUtils} (state : GameState) :
  reachable state → (Qc_of_Z 30 ≤ playerX state ≤ Qc_of_Z 770)%Qc.
Proof. intros Hreachable. by destruct (reachable_wellFormed state Hreachable). Qed.

Lemma X1_ship_stays_in_range_witness :
  (Qc_of_Z 30 ≤ playerX sampleGame ≤ Qc_of_Z 770)%Qc.
Proof. exact (@X1_ship_stays_in_range sampleMathUtils sampleGame sampleGame_reachable). Defined.

(** X2. In every reachable state [lives] is between 0 and 3, and it is 0
    only when the game is over. *)
Theorem X2_lives_between_0_and_3 `{MathUtils} (state : GameState) :
  reachable state →
  0 ≤ lives state ≤ 3 ∧ (lives state = 0 → status state = gameOver).
Proof.
  intros Hreachable.
  by destruct (reachable_wellFormed state Hreachable) as (_ & ? & ? & _).
Qed.

Lemma X2_lives_between_0_and_3_witness :
  0 ≤ lives sampleGame ≤ 3 ∧ (lives sampleGame = 0 → status sampleGame = gameOver).
Proof. exact (@X2_lives_between_0_and_3 sampleMathUtils sampleGame sampleGame_reachable). Defined.

(** X3. In every reachable state the level is the one the score gives:
    [level = floor(score / 50) + 1]. *)
Theorem X3_level_follows_score `{MathUtils} (state : GameState) :
  reachable state → level state = score state / 50 + 1.
Proof.
  intros Hreachable.
  by destruct (reachable_wellFormed state Hreachable) as (_ & _ & _ & ? & _).
Qed.

Lemma X3_level_follows_score_witness : level sampleGame = score sampleGame / 50 + 1.
Proof. exact (@X3_level_follows_score sampleMathUtils sampleGame sampleGame_reachable). Defined.

(** X4. Whatever actions are dispatched, with numbers as the targets of
    MOVE_PLAYER, each bullet has its abscissa in [30, 770], its ordinate at
    most 530 and the speed 8.  (A MOVE_PLAYER to [NaN], after which SHOOT
    makes a bullet at [NaN], is outside this statement.) *)
Theorem X4_bullets_in_play `{MathUtils} (state : GameState) :
  reachable state →
  ∀ bullet : Bullet.t, bullet ∈ bullets state →
    (Qc_of_Z 30 ≤ Bullet.x bullet ≤ Qc_of_Z 770)%Qc
    ∧ (Bullet.y bullet ≤ Qc_of_Z 530)%Qc
    ∧ Bullet.speed bullet = Qc_of_Z 8.
Proof.
  intros Hreachable.
  destruct (reachable_wellFormed state Hreachable) as (_ & _ & _ & _ & Hbullets & _).
  by apply Forall_forall.
Qed.

Lemma X4_bullets_in_play_witness :
  Forall (λ bullet,
            (Qc_of_Z 30 ≤ Bullet.x bullet ≤ Qc_of_Z 770)%Qc
            ∧ (Bullet.y bullet ≤ Qc_of_Z 530)%Qc
            ∧ Bullet.speed bullet = Qc_of_Z 8)
    (bullets (@gameReducer sampleMathUtils sampleGame SHOOT sampleWorld).1).
Proof.
  apply Forall_forall. apply (@X4_bullets_in_play sampleMathUtils).
  apply reachable_dispatch, sampleGame_reachable.
Defined.

(** X5. A reachable state without settings (before the first START_GAME and
    after RETURN_TO_MENU) is not playing and has no problem, no answers, no
    bullets, score 0, three lives, level 1 and [timeRemaining] 0; a
    reachable state with settings has a problem.  Nothing is said of
    [showingAnswer], which SHOW_CORRECT_ANSWER sets in every state
    ([reveal_flag_without_a_game] below). *)
Theorem X5_no_settings_no_game `{MathUtils} (state : GameState) :
  reachable state →
  (settings state = None →
     status state ≠ playing ∧ currentProblem state = None
     ∧ fallingAnswers state = [] ∧ bullets state = []
     ∧ score state = 0 ∧ lives state = 3 ∧ level state = 1
     ∧ timeRemaining state = Qc_of_Z 0)
  ∧ (is_Some (settings state) → is_Some (currentProblem state)).
Proof.
  intros Hreachable.
  by destruct (reachable_wellFormed state Hreachable) as (_ & _ & _ & _ & _ & ? & ?).
Qed.

Lemma X5_no_settings_no_game_witness :
  is_Some (currentProblem sampleGame)
  ∧ score (@gameReducer sampleMathUtils sampleGame RETURN_TO_MENU sampleWorld).1 = 0.
Proof.
  split.
  - by apply (@X5_no_settings_no_game sampleMathUtils sampleGame sampleGame_reachable).
  - apply (@X5_no_settings_no_game sampleMathUtils); [|done].
    apply reachable_dispatch, sampleGame_reachable.
Defined.

(** SHOW_CORRECT_ANSWER is not guarded: dispatched in the menu, it gives a
    reachable state without settings whose [showingAnswer] is set. *)
Example reveal_flag_without_a_game `{MathUtils} (w : World) :
  let state := (gameReducer createInitialState SHOW_CORRECT_ANSWER w).1 in
  reachable state ∧ settings state = None ∧ showingAnswer state = true.
Proof. split; [apply reachable_dispatch, reachable_initial|done]. Qed.

(** ** The countdown *)

Lemma gameReducer_update_timer_playing `{MathUtils} (state : GameState)
    (deltaTime : Qc) (w : World) :
  status state = playing →
  gameReducer state (UPDATE_TIMER deltaTime) w =
    if decide (Qc_of_Z 0 < timeRemaining state ∧ timeRemaining state ≤ deltaTime)%Qc
    then (timedOut state, scoreOffered state w)
    else (withTimeRemaining
            (Math.max (Qc_of_Z 0) (timeRemaining state - deltaTime)%Qc) state, w).
Proof.
  intros Hplaying. unfold gameReducer, withTimeRemaining.
  case_decide as Hidle; [done|].
  destruct (decide (Qc_of_Z 0 < timeRemaining state
                    ∧ timeRemaining state ≤ deltaTime)%Qc) as [[Hleft Hout]|Hin].
  - rewrite Math_max_zero_expired by done. by rewrite decide_True by (by split).
  - rewrite decide_False; [done|]. intros [Hzero Hleft]. apply Hin. split; [done|].
    revert Hzero. unfold Math.max. case_decide; intros; qc_lra.
Qed.

(** X6. While playing, a tick of non-negative length shorter than the time
    left takes exactly its length off [timeRemaining] and changes nothing
    else, the world included.  If no time is left (as in a game started with
    a duration of 0), a tick leaves the game playing with [timeRemaining] 0
    and offers no score: the countdown ends a game only on the tick that
    brings it from above 0 down to 0. *)
Theorem X6_tick_without_expiry `{MathUtils} (state : GameState) (deltaTime : Qc)
    (w : World) :
  status state = playing →
  (Qc_of_Z 0 ≤ deltaTime)%Qc →
  ((deltaTime < timeRemaining state)%Qc →
     gameReducer state (UPDATE_TIMER deltaTime) w =
       (withTimeRemaining (timeRemaining state - deltaTime)%Qc state, w))
  ∧ ((timeRemaining state ≤ Qc_of_Z 0)%Qc →
     gameReducer state (UPDATE_TIMER deltaTime) w =
       (withTimeRemaining (Qc_of_Z 0) state, w)
     ∧ status (gameReducer state (UPDATE_TIMER deltaTime) w).1 = playing).
Proof.
  intros Hplaying Hdelta.
  rewrite gameReducer_update_timer_playing by done. split.
  - intros Hshort. rewrite decide_False by (intros [_ Hout]; qc_lra).
    do 2 f_equal. apply Math_max_r. qc_lra.
  - intros Hnone. rewrite decide_False by (intros [Hleft _]; qc_lra).
    rewrite Math_max_l by qc_lra. done.
Qed.

(** X6 on the sample game: a tick of 10 seconds leaves 50 of the 60. *)
Lemma X6_tick_without_expiry_witness :
  timeRemaining
    (@gameReducer sampleMathUtils sampleGame (UPDATE_TIMER (Qc_of_Z 10)) sampleWorld).1
  = Qc_of_Z 50.
Proof.
  assert (Hplaying : status sampleGame = playing) by reflexivity.
  assert (Hdelta : (Qc_of_Z 0 ≤ Qc_of_Z 10)%Qc) by (by vm_compute).
  destruct (@X6_tick_without_expiry sampleMathUtils sampleGame (Qc_of_Z 10) sampleWorld
              Hplaying Hdelta) as [Hshort _].
  rewrite Hshort by (by vm_compute). cbn [fst withTimeRemaining timeRemaining].
  by apply Qc_is_canon.
Defined.

(** X7. Ticks of non-negative lengths never raise the countdown and never
    take it below 0.  Whatever their number and lengths, they change nothing
    but the countdown, until one of them ends the game: the state is then
    the one of the first expiry, with the score offered to the store once. *)
Theorem X7_countdown_only_falls `{MathUtils} (state : GameState) (deltas : list Qc)
    (w : World) :
  Forall (λ deltaTime, (Qc_of_Z 0 ≤ deltaTime)%Qc) deltas →
  (Qc_of_Z 0 ≤ timeRemaining state)%Qc →
  let result := dispatchAll state (UPDATE_TIMER <$> deltas) w in
  (Qc_of_Z 0 ≤ timeRemaining result.1 ≤ timeRemaining state)%Qc
  ∧ ((result.1 = withTimeRemaining (timeRemaining result.1) state ∧ result.2 = w)
     ∨ (status state = playing
        ∧ result = (timedOut state, scoreOffered state w))).
Proof.
  intros Hdeltas. revert state.
  induction Hdeltas as [|deltaTime deltas Hdelta _ IH]; intros state Htime result.
  { subst result. cbn. split; [split; [done|apply Qcle_refl]|]. left.
    by destruct state. }
  destruct (decide (status state = playing)) as [Hplaying|Hidle].
  2: { subst result.
       rewrite (dispatchAll_update_timer_idle state (deltaTime :: deltas)) by done.
       cbn. split; [split; [done|apply Qcle_refl]|]. left. by destruct state. }
  subst result. cbn [fmap list_fmap dispatchAll].
  rewrite gameReducer_update_timer_playing by done.
  destruct (decide (Qc_of_Z 0 < timeRemaining state
                    ∧ timeRemaining state ≤ deltaTime)%Qc) as [[Hleft Hout]|Hin].
  - rewrite dispatchAll_update_timer_idle by done. cbn.
    split; [split; [apply Qcle_refl|done]|]. by right.
  - set (left := Math.max (Qc_of_Z 0) (timeRemaining state - deltaTime)%Qc).
    assert (Hleft : (Qc_of_Z 0 ≤ left ≤ timeRemaining state)%Qc).
    { subst left. unfold Math.max. case_decide; split; qc_lra. }
    destruct (IH (withTimeRemaining left state)) as [[Hlow Hhigh] Hshape];
      [by destruct Hleft|].
    cbn [timeRemaining withTimeRemaining] in Hhigh.
    split; [split; [done|destruct Hleft; qc_lra]|].
    destruct Hshape as [[Hstate Hworld]|[_ Hended]].
    + left. split; [|done]. rewrite Hstate at 1. done.
    + right. split; [done|]. rewrite Hended. done.
Qed.

(** X7 on the sample game, which starts with 60 seconds: after ticks of 25
    and 10 seconds the countdown is between 0 and 60, and after ticks of 25
    and 40 seconds as well. *)
Lemma X7_countdown_only_falls_witness :
  (Qc_of_Z 0
   ≤ timeRemaining (@dispatchAll sampleMathUtils sampleGame
                      (UPDATE_TIMER <$> [Qc_of_Z 25; Qc_of_Z 10]) sampleWorld).1
   ≤ timeRemaining sampleGame)%Qc
  ∧ (Qc_of_Z 0
     ≤ timeRemaining (@dispatchAll sampleMathUtils sampleGame
                        (UPDATE_TIMER <$> [Qc_of_Z 25; Qc_of_Z 40]) sampleWorld).1
     ≤ timeRemaining sampleGame)%Qc.
Proof.
  assert (H10 : (Qc_of_Z 0 ≤ Qc_of_Z 10)%Qc) by (by vm_compute).
  assert (H25 : (Qc_of_Z 0 ≤ Qc_of_Z 25)%Qc) by (by vm_compute).
  assert (H40 : (Qc_of_Z 0 ≤ Qc_of_Z 40)%Qc) by (by vm_compute).
  assert (H60 : (Qc_of_Z 0 ≤ timeRemaining sampleGame)%Qc) by (by vm_compute).
  split.
  - apply (@X7_countdown_only_falls sampleMathUtils sampleGame
             [Qc_of_Z 25; Qc_of_Z 10] sampleWorld); [|done].
    by repeat constructor.
  - apply (@X7_countdown_only_falls sampleMathUtils sampleGame
             [Qc_of_Z 25; Qc_of_Z 40] sampleWorld); [|done].
    by repeat constructor.
Defined.

(** ** Bullets in flight *)

Lemma raised_again (n : nat) (bullet : Bullet.t) :
  raised n (raised 1 bullet) = raised (S n) bullet.
Proof.
  unfold raised. cbn [Bullet.id Bullet.x Bullet.y Bullet.speed]. f_equal.
  change (Z.of_nat 1) with 1.
  rewrite (Nat2Z.inj_succ n), <-Z.add_1_r, Z2Qc_inj_add, Z2Qc_inj_1. ring.
Qed.

Lemma raised_above (n : nat) (bullet : Bullet.t) :
  (0 < Bullet.y (raised (S n) bullet))%Qc → (0 < Bullet.y (raised 1 bullet))%Qc.
Proof.
  unfold raised, BULLET_SPEED. cbn [Bullet.y].
  change (Z.of_nat 1) with 1.
  rewrite (Nat2Z.inj_succ n), <-Z.add_1_r, Z2Qc_inj_add.
  assert (Hn : (Qc_of_Z 0 ≤ Qc_of_Z (Z.of_nat n))%Qc)
    by (apply (Z2Qc_inj_le 0 (Z.of_nat n)); lia).
  revert Hn. generalize (Qc_of_Z (Z.of_nat n)). intros k Hk Hy. qc_lra.
Qed.

Lemma gameReducer_update_bullets `{MathUtils} (state : GameState) (w : World) :
  gameReducer state UPDATE_BULLETS w =
    (withBullets
       (filter (λ bullet, 0 < Bullet.y bullet)%Qc (raised 1 <$> bullets state)) state,
     w).
Proof.
  unfold gameReducer, withBullets. do 3 f_equal.
Qed.

Lemma raised_filter (n : nat) (bullets' : list Bullet.t) :
  filter (λ bullet, 0 < Bullet.y bullet)%Qc
    (raised n <$> filter (λ bullet, 0 < Bullet.y bullet)%Qc (raised 1 <$> bullets'))
  = filter (λ bullet, 0 < Bullet.y bullet)%Qc (raised (S n) <$> bullets').
Proof.
  induction bullets' as [|bullet bullets' IH]; [done|].
  cbn [fmap list_fmap]. rewrite !filter_cons.
  destruct (decide (0 < Bullet.y (raised 1 bullet))%Qc) as [Habove|Hgone].
  - cbn [fmap list_fmap]. rewrite filter_cons, raised_again.
    case_decide; by rewrite <-IH.
  - rewrite decide_False by (intros Hlater; by apply Hgone, (raised_above n)).
    apply IH.
Qed.

(** X8. [n >= 1] UPDATE_BULLETS in a row move every bullet up by [8 n] and
    keep, in their order, exactly the bullets that are then still above 0;
    nothing else changes.  (A bullet that is at or below 0 stays in the
    list until the first UPDATE_BULLETS.) *)
Theorem X8_bullet_updates_add_up `{MathUtils} (n : nat) :
  ∀ (state : GameState) (w : World),
    (0 < n)%nat →
    dispatchAll state (replicate n UPDATE_BULLETS) w =
      (withBullets
         (filter (λ bullet, 0 < Bullet.y bullet)%Qc (raised n <$> bullets state))
         state, w).
Proof.
  induction n as [|n IH]; intros state w Hn; [lia|].
  cbn [replicate dispatchAll]. rewrite gameReducer_update_bullets.
  destruct n as [|n]; [done|].
  rewrite IH by lia. cbn [bullets withBullets]. by rewrite raised_filter.
Qed.

(** X8 on the sample game: a bullet shot from the ship is at 530 - 8 * 66 = 2
    after 66 updates and gone after 67. *)
Lemma X8_bullet_updates_add_up_witness :
  let shot := (@gameReducer sampleMathUtils sampleGame SHOOT sampleWorld).1 in
  (λ b, this (Bullet.y b)) <$>
    bullets (@dispatchAll sampleMathUtils shot (replicate 66 UPDATE_BULLETS) sampleWorld).1
  = [2 # 1]%Q
  ∧ bullets (@dispatchAll sampleMathUtils shot (replicate 67 UPDATE_BULLETS) sampleWorld).1
    = [].
Proof.
  intros shot. split.
  - rewrite (@X8_bullet_updates_add_up sampleMathUtils 66 shot sampleWorld) by lia.
    reflexivity.
  - rewrite (@X8_bullet_updates_add_up sampleMathUtils 67 shot sampleWorld) by lia.
    reflexivity.
Defined.

(** ** MISS_ANSWER *)

Lemma findAnswer_filter_other (other missId : string) (answers : list FallingAnswer.t) :
  other ≠ missId →
  findAnswer other (filter (λ a, FallingAnswer.id a ≠ missId) answers)
  = findAnswer other answers.
Proof.
  intros Hother. unfold findAnswer.
  induction answers as [|a answers IH]; [done|].
  rewrite filter_cons. case_decide as Hkept.
  - cbn [find]. by rewrite IH.
  - cbn [find]. by rewrite bool_decide_eq_false_2 by congruence.
Qed.

Lemma filter_absent (missId : string) (answers : list FallingAnswer.t) :
  findAnswer missId answers = None →
  filter (λ a, FallingAnswer.id a ≠ missId) answers = answers.
Proof.
  unfold findAnswer. induction answers as [|a answers IH]; [done|].
  cbn [find]. case_bool_decide as Hid; [done|].
  intros Hrest. rewrite filter_cons_True by done. by rewrite IH.
Qed.

Lemma findAnswer_filter_missed (missId : string) (answers : list FallingAnswer.t) :
  findAnswer missId (filter (λ a, FallingAnswer.id a ≠ missId) answers) = None.
Proof.
  apply findAnswer_None. intros a Ha. by apply list_elem_of_filter in Ha as [Hid _].
Qed.

(** X9. MISS_ANSWER takes every answer with the given id off the list and
    changes nothing else: afterwards HIT_ANSWER and another MISS_ANSWER with
    that id leave the state as it is, every other id finds what it found
    before, and a MISS_ANSWER whose id is not on the list changes nothing. *)
Theorem X9_miss_removes_answer `{MathUtils} (state : GameState) (missId : string)
    (w w' : World) :
  let missed := (gameReducer state (MISS_ANSWER missId) w).1 in
  gameReducer state (MISS_ANSWER missId) w =
    (withAnswers (filter (λ a, FallingAnswer.id a ≠ missId) (fallingAnswers state))
       state, w)
  ∧ gameReducer missed (HIT_ANSWER missId) w' = (missed, w')
  ∧ gameReducer missed (MISS_ANSWER missId) w' = (missed, w')
  ∧ (∀ other : string, other ≠ missId →
       findAnswer other (fallingAnswers missed)
       = findAnswer other (fallingAnswers state))
  ∧ (findAnswer missId (fallingAnswers state) = None → missed = state).
Proof.
  intros missed. subst missed. cbn [gameReducer fst]. split_and!.
  - done.
  - apply gameReducer_hit_absent. cbn [fallingAnswers].
    apply findAnswer_filter_missed.
  - do 2 f_equal. cbn [fallingAnswers].
    apply filter_absent, findAnswer_filter_missed.
  - intros other Hother. by apply findAnswer_filter_other.
  - intros Habsent. rewrite filter_absent by done. by destruct state.
Qed.

(** ** The status *)

(** X10. A game that is over stays over under every action but START_GAME
    and RETURN_TO_MENU; the status becomes [playing] only by START_GAME, and
    [menu] only by RETURN_TO_MENU. *)
Theorem X10_status_transitions `{MathUtils} (state : GameState) (action : GameAction)
    (w : World) :
  let after := (gameReducer state action w).1 in
  (status state = gameOver →
     (∀ settings', action ≠ START_GAME settings') → action ≠ RETURN_TO_MENU →
     status after = gameOver)
  ∧ (status after = playing →
     status state = playing ∨ ∃ settings', action = START_GAME settings')
  ∧ (status after = menu → status state = menu ∨ action = RETURN_TO_MENU).
Proof.
  intros after. subst after.
  destruct action as [settings'|x| | |deltaTime|deltaTime|hitId|missId| | | |].
  2: { rewrite gameReducer_move_player. cbn. by split_and!; auto. }
  all: reducer_cases; cbn; split_and!; intros; try done; auto.
  all: try (by right; eexists).
  all: match goal with Hne : ∀ _, _ ≠ _ |- _ => by destruct (Hne _ eq_refl) end.
Qed.

(** ** The reveal *)

(** X11. While playing with at least two lives, a wrong hit arms the reveal
    timer; the NEXT_PROBLEM it dispatches then shows a fresh candidate set
    (provided [generateWrongAnswers] keeps its contract) and ends the
    reveal, with one life less than before the hit and the score, level,
    status and time as they were.  The wrong hit that takes the last life
    does not arm the timer. *)
Theorem X11_reveal_cycle `{MathUtilsContract} (state : GameState) (hitId : string)
    (answer : FallingAnswer.t) (settings' : GameSettings) (w w' : World) :
  findAnswer hitId (fallingAnswers state) = Some answer →
  FallingAnswer.isCorrect answer = false →
  settings state = Some settings' →
  status state = playing →
  let hit := (gameReducer state (HIT_ANSWER hitId) w).1 in
  let next := (gameReducer hit NEXT_PROBLEM w').1 in
  (2 ≤ lives state →
     revealArmed hit = true
     ∧ revealArmed next = false
     ∧ hasCandidateSet next
     ∧ fallingAnswers next = (generateNewProblem settings' w').1.2
     ∧ bullets next = []
     ∧ lives next = lives state - 1
     ∧ score next = score state ∧ level next = level state
     ∧ status next = playing ∧ timeRemaining next = timeRemaining state)
  ∧ (lives state ≤ 1 → revealArmed hit = false).
Proof.
  intros Hfind Hwrong Hsettings Hplaying hit next. split.
  - intros Hlives. subst next hit.
    rewrite (gameReducer_hit_wrong_alive state hitId answer) by done.
    cbn [fst]. unfold gameReducer. cbn [settings wounded]. rewrite Hsettings.
    destruct (generateNewProblem settings' w') as [[problem answers] w''] eqn:Hgen.
    unfold revealArmed. cbn. rewrite Hplaying. split_and!; try done.
    exists problem. split; [done|]. by eapply generateNewProblem_candidateSet.
  - intros Hlives. subst hit.
    by rewrite (gameReducer_hit_wrong_fatal state hitId answer).
Qed.

(** X11 on the sample game: the wrong answer 16 is hit, then NEXT_PROBLEM
    is dispatched five seconds later. *)
Lemma X11_reveal_cycle_witness :
  let hit := (@gameReducer sampleMathUtils sampleGame (HIT_ANSWER wrongId) sampleWorld).1 in
  let next := (@gameReducer sampleMathUtils hit NEXT_PROBLEM laterWorld).1 in
  revealArmed hit = true ∧ revealArmed next = false ∧ lives next = 2.
Proof.
  assert (Hfind : is_Some (findAnswer wrongId (fallingAnswers sampleGame)))
    by (by eexists).
  destruct Hfind as [answer Hfind].
  assert (Hwrong : FallingAnswer.isCorrect answer = false)
    by (by injection Hfind as <-).
  destruct (@X11_reveal_cycle sampleMathUtils sampleMathUtilsContract sampleGame wrongId
              answer sampleSettings sampleWorld laterWorld Hfind Hwrong eq_refl eq_refl)
    as [Halive _].
  destruct Halive as (Harmed & Hended & _ & _ & _ & Hlives & _); [by vm_compute|].
  by split_and!.
Defined.

(** ** More on the score store *)

Lemma getHighScore_storage (settings' : GameSettings) (w w' : World) :
  storage w = storage w' → (getHighScore settings' w).1 = (getHighScore settings' w').1.
Proof.
  intros Hstorage. unfold getHighScore, getHighScores. rewrite Hstorage.
  by destruct (localStorage_getItem (storage w')) as [[[| |scores]|]|].
Qed.

Lemma getHighScore_scores (settings' : GameSettings) (w : World) :
  (getHighScore settings' w).1 =
    or_zero (HighScore.score <$> (getHighScores w).1 !! getScoreKey settings').
Proof. unfold getHighScore. by destruct (getHighScores w). Qed.

Lemma getHighScores_blocked (w : World) :
  getItem_throws (storage w) = true → (getHighScores w).1 = ∅.
Proof.
  intros Hget. unfold getHighScores, localStorage_getItem. by rewrite Hget.
Qed.

(** The best of [settings'] after a save for [saved], by the outcome of the
    save. *)
Lemma getHighScore_after_save (settings' saved : GameSettings) (score' : Z) (w : World) :
  (getHighScore settings' (saveHighScore saved score' w).2).1 =
    if decide ((saveHighScore saved score' w).1 = true
               ∧ getItem_throws (storage w) = false
               ∧ getScoreKey settings' = getScoreKey saved)
    then score'
    else (getHighScore settings' w).1.
Proof.
  rewrite (saveHighScore_unfold saved score' w).
  destruct (decide ((getHighScore saved w).1 < score')) as [Hbetter|Hworse].
  2: { rewrite decide_False by (by intros [? _]). cbn [snd].
       apply getHighScore_storage, getHighScores_storage. }
  destruct (setItem_throws (storage w)) eqn:Hset.
  { rewrite decide_False by (by intros [? _]). cbn [snd].
    apply getHighScore_storage. cbn. apply getHighScores_storage. }
  cbn [fst snd].
  destruct (getItem_throws (storage w)) eqn:Hget.
  - rewrite decide_False by (by intros (_ & ? & _)).
    rewrite !getHighScore_scores, !getHighScores_blocked; done.
  - erewrite getHighScore_stored; [|done..].
    destruct (decide (getScoreKey settings' = getScoreKey saved)) as [Hkey|Hkey].
    + rewrite decide_True by done. rewrite Hkey, lookup_insert_eq.
      exact (or_zero_Some score').
    + rewrite decide_False by (by intros (_ & _ & ?)).
      rewrite lookup_insert_ne by done. by rewrite getHighScore_scores.
Qed.






(** ** Score keys *)

Lemma dashless_app (a b : string) : dashless (a +:+ b) = dashless a && dashless b.
Proof. induction a as [|c a IH]; simpl; [done|]. by destruct (Ascii.eqb c "-"%char). Qed.

Lemma pretty_Z_dashless (n : Z) : 0 ≤ n → dashless (pretty n) = true.
Proof.
  intros Hn. destruct n as [|p|p]; [done| |lia].
  unfold pretty, pretty_Z, pretty, pretty_positive, pretty, pretty_N.
  case_decide; [done|]. by apply pretty_N_go_dashless.
Qed.

Lemma pretty_N_go_nonempty (x : N) (s : string) :
  s ≠ EmptyString → pretty_N_go x s ≠ EmptyString.
Proof.
  revert s. induction (N.lt_wf_0 x) as [x _ IH]; intros s Hs.
  destruct (decide (x = 0%N)) as [->|Hpos]; [by rewrite pretty_N_go_0|].
  rewrite pretty_N_go_step by lia. apply IH; [apply N.div_lt; lia|done].
Qed.

Lemma pretty_Z_nonempty (n : Z) : 0 ≤ n → pretty n ≠ EmptyString.
Proof.
  intros Hn. destruct n as [|p|p]; [done| |lia].
  unfold pretty, pretty_Z, pretty, pretty_positive, pretty, pretty_N.
  case_decide; [done|]. rewrite pretty_N_go_step by lia.
  by apply pretty_N_go_nonempty.
Qed.

Lemma split_dash_app (a b : string) :
  dashless a = true → split_dash (a +:+ String "-"%char b) = a :: split_dash b.
Proof.
  induction a as [|c a IH]; simpl; [done|].
  destruct (Ascii.eqb c "-"%char); [done|]. intros Ha. by rewrite IH.
Qed.

Lemma split_dash_dashless (a : string) : dashless a = true → split_dash a = [a].
Proof.
  induction a as [|c a IH]; simpl; [done|].
  destruct (Ascii.eqb c "-"%char); [done|]. intros Ha. by rewrite IH.
Qed.

Lemma append_s_inj (a b : string) : a +:+ "s" = b +:+ "s" → a = b.
Proof.
  revert b. induction a as [|c a IH]; intros [|c' b]; simpl; intros [= ]; subst.
  - done.
  - by destruct b.
  - by destruct a.
  - f_equal. by apply IH.
Qed.

Lemma operationName_dashless (op : OperationType) : dashless (operationName op) = true.
Proof. by destruct op. Qed.

Lemma operationName_inj (op op' : OperationType) :
  operationName op = operationName op' → op = op'.
Proof. by destruct op, op'. Qed.

(** The parts of a score key. *)
Lemma getScoreKey_split (settings' : GameSettings) :
  nonNegative settings' →
  split_dash (getScoreKey settings') =
    match scoreSlot settings' with
    | Some n =>
        [operationName (operation settings'); "specific"; pretty n;
         pretty (practiceDuration settings') +:+ "s"]
    | None =>
        [operationName (operation settings'); "all";
         pretty (practiceDuration settings') +:+ "s"]
    end.
Proof.
  intros [Hduration Hnumber].
  assert (Hlast : dashless (pretty (practiceDuration settings') +:+ "s") = true)
    by (by rewrite dashless_app, pretty_Z_dashless).
  assert (Hall : ∀ op d : string,
    op +:+ "-all-" +:+ d = op +:+ String "-"%char ("all" +:+ String "-"%char d))
    by done.
  assert (Hspecific : ∀ op n d : string,
    op +:+ "-specific-" +:+ n +:+ "-" +:+ d
    = op +:+ String "-"%char
        ("specific" +:+ String "-"%char (n +:+ String "-"%char d)))
    by done.
  unfold getScoreKey, scoreSlot in *.
  destruct (practiceMode settings'), (specificNumber settings') as [n|].
  1,2,4: rewrite Hall, split_dash_app by apply operationName_dashless;
    rewrite split_dash_app by done; by rewrite split_dash_dashless.
  rewrite Hspecific, split_dash_app by apply operationName_dashless.
  rewrite split_dash_app by done.
  rewrite split_dash_app by (apply pretty_Z_dashless; auto).
  by rewrite split_dash_dashless.
Qed.

(** X15. For settings with non-negative numbers, two configurations have
    the same score key exactly when they have the same operation, the same
    duration and the same practised number (or both none): [practiceMode]
    and [specificNumber] matter only through that number.  And they have the
    same best in every store, as [getHighScore] reads it, exactly when they
    have the same score key; [saveHighScore] does not tell them apart
    either. *)
Theorem X15_score_key_separates (settings1 settings2 : GameSettings) :
  nonNegative settings1 →
  nonNegative settings2 →
  (getScoreKey settings1 = getScoreKey settings2
   ↔ operation settings1 = operation settings2
     ∧ scoreSlot settings1 = scoreSlot settings2
     ∧ practiceDuration settings1 = practiceDuration settings2)
  ∧ (getScoreKey settings1 = getScoreKey settings2
     ↔ ∀ w : World, (getHighScore settings1 w).1 = (getHighScore settings2 w).1)
  ∧ (getScoreKey settings1 = getScoreKey settings2 →
     ∀ (score' : Z) (w : World),
       getHighScore settings1 w = getHighScore settings2 w
       ∧ saveHighScore settings1 score' w = saveHighScore settings2 score' w).
Proof.
  intros Hnn1 Hnn2. split_and!; [split| |].
  - intros Hkey. apply (f_equal split_dash) in Hkey.
    rewrite !getScoreKey_split in Hkey by done.
    destruct (scoreSlot settings1) as [n1|], (scoreSlot settings2) as [n2|];
      try discriminate.
    + injection Hkey as Hop Hn Hd.
      apply operationName_inj in Hop. apply (inj pretty) in Hn.
      apply append_s_inj, (inj pretty) in Hd. by subst.
    + injection Hkey as Hop Hd.
      apply operationName_inj in Hop. apply append_s_inj, (inj pretty) in Hd. done.
  - intros (Hop & Hslot & Hd). unfold getScoreKey, scoreSlot in *.
    rewrite Hop, Hd.
    destruct (practiceMode settings1), (specificNumber settings1),
      (practiceMode settings2), (specificNumber settings2); congruence.
  - split.
    + intros Hkey w. unfold getHighScore. by rewrite Hkey.
    + intros Hbest.
      destruct (decide (getScoreKey settings1 = getScoreKey settings2))
        as [|Hother]; [done|].
      set (scores := {[ getScoreKey settings1 :=
                          {| HighScore.score := 1;
                             HighScore.date := EmptyString |} ]}
                     : gmap string HighScore.t).
      specialize (Hbest (storing scores)).
      rewrite (getHighScore_stored settings1 (storing scores) scores eq_refl eq_refl),
        (getHighScore_stored settings2 (storing scores) scores eq_refl eq_refl)
        in Hbest.
      subst scores.
      rewrite lookup_singleton_eq, lookup_singleton_ne in Hbest by done.
      discriminate Hbest.
  - intros Hkey score' w. unfold getHighScore, saveHighScore. by rewrite Hkey.
Qed.

(** X15 on the sample settings: practising 7 in additions of 60 seconds has
    another key than all additions of 60 seconds. *)
Lemma X15_score_key_separates_witness :
  getScoreKey sampleSettings
  ≠ getScoreKey {| operation := addition; practiceMode := specific_number;
                   specificNumber := Some 7; practiceDuration := 60 |}.
Proof.
  intros Hkey.
  apply X15_score_key_separates in Hkey as (_ & Hslot & _).
  - discriminate Hslot.
  - split; [done|]. by intros n [=].
  - split; [done|]. intros n [= <-]. done.
Defined.

(** X16. For settings with non-negative numbers, [formatScoreKey] shows of
    the score key what [getScoreKey] put into it: the operation with a
    capital, "Practice" and the practised number or "All Numbers", and the
    duration. *)
Theorem X16_format_of_score_key (settings' : GameSettings) :
  nonNegative settings' →
  formatScoreKey (getScoreKey settings') =
    match scoreSlot settings' with
    | Some n =>
        capitalize (operationName (operation settings')) +:+ " - Practice "
          +:+ pretty n +:+ " (" +:+ (pretty (practiceDuration settings') +:+ "s")
          +:+ ")"
    | None =>
        capitalize (operationName (operation settings')) +:+ " - All Numbers ("
          +:+ (pretty (practiceDuration settings') +:+ "s") +:+ ")"
    end.
Proof.
  intros Hnn. unfold formatScoreKey. rewrite getScoreKey_split by done.
  destruct (scoreSlot settings') as [n|] eqn:Hslot; cbn.
  - rewrite decide_True; [done|]. split; [done|].
    apply pretty_Z_nonempty. by apply Hnn.
  - by rewrite decide_False by (by intros [? _]).
Qed.

(** X16 on two settings. *)
Lemma X16_format_of_score_key_witness :
  formatScoreKey (getScoreKey sampleSettings) = "Addition - All Numbers (60s)"
  ∧ formatScoreKey
      (getScoreKey {| operation := division; practiceMode := specific_number;
                      specificNumber := Some 7; practiceDuration := 90 |})
    = "Division - Practice 7 (90s)".
Proof.
  split.
  - rewrite X16_format_of_score_key; [reflexivity|]. split; [done|]. by intros n [=].
  - rewrite X16_format_of_score_key; [reflexivity|].
    split; [done|]. intros n [= <-]. done.
Defined.

(** ** More on new problems *)

(** X17. Whatever [generateProblem] and [generateWrongAnswers] return, the
    problem shown is the generated one, and the values of the answers are
    the correct answer and the values of [generateWrongAnswers], each as
    often as it was given, in some order; every answer is marked correct
    exactly when its value is the correct answer, so at least one answer is
    marked correct. *)
Theorem X17_answers_are_a_rearrangement `{MathUtils} (settings' : GameSettings)
    (w : World) :
  let generated :=
    generateProblem (operation settings') (specificNumber settings') (random w) in
  let wrong := generateWrongAnswers (correctAnswer generated.1) 3 generated.2 in
  let result := generateNewProblem settings' w in
  result.1.1 = generated.1
  ∧ FallingAnswer.value <$> result.1.2 ≡ₚ correctAnswer generated.1 :: wrong.1
  ∧ (∀ a : FallingAnswer.t, a ∈ result.1.2 →
       FallingAnswer.isCorrect a
       = bool_decide (FallingAnswer.value a = correctAnswer result.1.1))
  ∧ ∃ a : FallingAnswer.t, a ∈ result.1.2 ∧ FallingAnswer.isCorrect a = true.
Proof.
  intros generated wrong result. subst result.
  rewrite generateNewProblem_unfold. cbn zeta. cbn [fst snd].
  fold generated. fold wrong.
  set (shuffled := shuffle (correctAnswer generated.1 :: wrong.1) wrong.2).
  set (placed := placeAnswers _ _ _ _ _).
  assert (Hvalues : FallingAnswer.value <$> placed.1 = shuffled.1)
    by apply placeAnswers_values.
  assert (Hperm : FallingAnswer.value <$> placed.1
                  ≡ₚ correctAnswer generated.1 :: wrong.1)
    by (rewrite Hvalues; apply shuffle_Permutation).
  assert (Hmarks : ∀ a : FallingAnswer.t, a ∈ placed.1 →
            FallingAnswer.isCorrect a
            = bool_decide (FallingAnswer.value a = correctAnswer generated.1)).
  { intros a Ha. apply list_elem_of_lookup in Ha as [k Hk].
    by apply placeAnswers_lookup in Hk as (_ & _ & _ & _ & _ & Hmark). }
  split_and!; [done..|].
  assert (Hin : correctAnswer generated.1 ∈ FallingAnswer.value <$> placed.1)
    by (rewrite Hperm; left).
  apply list_elem_of_fmap in Hin as (a & Hvalue & Ha).
  exists a. split; [done|]. rewrite Hmarks by done. by apply bool_decide_eq_true_2.
Qed.

(** X18. The answers of a new problem have pairwise different ids, whatever
    the clock reads, so the id of each of them finds that very answer. *)
Theorem X18_answer_ids_are_distinct `{MathUtils} (settings' : GameSettings)
    (w : World) :
  let answers := (generateNewProblem settings' w).1.2 in
  NoDup (FallingAnswer.id <$> answers)
  ∧ ∀ a : FallingAnswer.t, a ∈ answers →
      findAnswer (FallingAnswer.id a) answers = Some a.
Proof.
  intros answers. subst answers.
  rewrite generateNewProblem_unfold. cbn zeta. cbn [fst snd].
  assert (Hnodup := placeAnswers_ids_NoDup).
  split; [apply Hnodup|]. intros a Ha. by apply findAnswer_NoDup.
Qed.

Lemma Qc_of_nat_pos (n : nat) : (0 < Qc_of_Z (Z.of_nat n + 1))%Qc.
Proof. rewrite <-Z2Qc_inj_0. apply (Z2Qc_inj_lt 0 (Z.of_nat n + 1)). lia. Qed.

(** X19. However many answers a new problem has, the answer at [index] is
    at [x = GAME_WIDTH / (count + 1) * (index + 1)], strictly inside the
    play area ([0 < x < GAME_WIDTH]), at [y = 100] with speed 0: the answers
    stand evenly spaced in a row, in the order of the list. *)
Theorem X19_answers_stand_in_a_row `{MathUtils} (settings' : GameSettings)
    (w : World) (index : nat) (a : FallingAnswer.t) :
  let answers := (generateNewProblem settings' w).1.2 in
  answers !! index = Some a →
  FallingAnswer.x a
  = (GAME_WIDTH / Qc_of_Z (Z.of_nat (length answers) + 1)
     * Qc_of_Z (Z.of_nat index + 1))%Qc
  ∧ (0 < FallingAnswer.x a)%Qc ∧ (FallingAnswer.x a < GAME_WIDTH)%Qc
  ∧ FallingAnswer.y a = Qc_of_Z 100
  ∧ FallingAnswer.speed a = Qc_of_Z 0.
Proof.
  intros answers. subst answers.
  rewrite generateNewProblem_unfold. cbn zeta. cbn [fst snd].
  set (shuffled := shuffle _ _).
  rewrite placeAnswers_length. intros Hlookup.
  pose proof (lookup_lt_Some _ _ _ Hlookup) as Hindex.
  rewrite placeAnswers_length in Hindex.
  apply placeAnswers_lookup in Hlookup as (_ & _ & Hx & Hy & Hspeed & _).
  rewrite Nat.add_0_l in Hx. rewrite Hx.
  set (count := Qc_of_Z (Z.of_nat (length shuffled.1) + 1)) in *.
  assert (Hcount : (0 < count)%Qc) by apply Qc_of_nat_pos.
  assert (Hspacing : (0 < GAME_WIDTH / count)%Qc).
  { apply Qcmult_pos_pos; [by vm_compute|by apply Qcinv_pos]. }
  split_and!; try done.
  - apply Qcmult_pos_pos; [done|apply Qc_of_nat_pos].
  - assert (Hwidth : (GAME_WIDTH / count * count)%Qc = GAME_WIDTH).
    { rewrite Qcmult_comm. apply Qcmult_div_r.
      intros Hzero. by apply (Qclt_not_eq _ _ Hcount). }
    rewrite <-Hwidth at 2. apply Qcmult_lt_mono_pos_l; [done|].
    subst count.
    apply (Z2Qc_inj_lt (Z.of_nat index + 1) (Z.of_nat (length shuffled.1) + 1)). lia.
Qed.

(** X19 in the sample world: the second of the four answers stands at 320. *)
Lemma X19_answers_stand_in_a_row_witness :
  FallingAnswer.x <$>
    (@generateNewProblem sampleMathUtils sampleSettings sampleWorld).1.2 !! 1%nat
  = Some (GAME_WIDTH / Qc_of_Z (Z.of_nat 4 + 1) * Qc_of_Z (Z.of_nat 1 + 1))%Qc.
Proof.
  destruct ((@generateNewProblem sampleMathUtils sampleSettings sampleWorld).1.2 !! 1%nat)
    as [a|] eqn:Hlookup; [|by vm_compute in Hlookup].
  destruct (@X19_answers_stand_in_a_row sampleMathUtils sampleSettings sampleWorld
              1%nat a Hlookup) as [Hx _].
  cbn [fmap option_fmap option_map]. f_equal. exact Hx.
Defined.

(** ** More on the shuffle *)

Lemma shuffle_from_draws (i : nat) :
  ∀ (a : list Z) (rng : Rng) (n : nat), (shuffle_from i a rng).2 n = rng (n + i)%nat.
Proof.
  induction i as [|i IH]; intros a rng n; cbn [shuffle_from Math_random snd].
  - by rewrite Nat.add_0_r.
  - rewrite IH. f_equal. lia.
Qed.

(** X20. The shuffle returns a list of the same length, leaves a list of at
    most one element as it is without drawing, and in general draws exactly
    [length - 1] random numbers: the draws left over are the ones that
    followed them. *)
Theorem X20_shuffle_draws (a : list Z) (rng : Rng) :
  length (shuffle a rng).1 = length a
  ∧ ((length a ≤ 1)%nat → shuffle a rng = (a, rng))
  ∧ ∀ n : nat, (shuffle a rng).2 n = rng (n + (length a - 1))%nat.
Proof.
  split_and!.
  - by rewrite shuffle_Permutation.
  - intros Hshort. unfold shuffle.
    by replace (length a - 1)%nat with 0%nat by lia.
  - intros n. apply shuffle_from_draws.
Qed.

(** ** Collisions *)

Lemma firstHit_Some (bullet : Bullet.t) (answers : list FallingAnswer.t)
    (hitAnswers : gset string) (answerId' : string) :
  firstHit bullet answers hitAnswers = Some answerId' →
  (answerId' ∉ hitAnswers)
  ∧ (∃ answer : FallingAnswer.t,
       answer ∈ answers ∧ FallingAnswer.id answer = answerId'
       ∧ withinHitRadius bullet answer).
Proof.
  induction answers as [|answer answers IH]; [done|]. cbn [firstHit].
  destruct (decide (FallingAnswer.id answer ∈ hitAnswers)) as [Hhit|Hfree].
  - intros Hrest. destruct (IH Hrest) as (? & a & ? & ? & ?).
    split; [done|]. exists a. split_and!; [by right|done..].
  - destruct (decide (withinHitRadius bullet answer)) as [Hnear|Hfar].
    + intros [= <-]. split; [done|]. exists answer. split_and!; [by left|done..].
    + intros Hrest. destruct (IH Hrest) as (? & a & ? & ? & ?).
      split; [done|]. exists a. split_and!; [by right|done..].
Qed.

Lemma firstHit_None (bullet : Bullet.t) (answers : list FallingAnswer.t)
    (hitAnswers : gset string) :
  firstHit bullet answers hitAnswers = None
  ↔ ∀ answer : FallingAnswer.t, answer ∈ answers →
      withinHitRadius bullet answer → FallingAnswer.id answer ∈ hitAnswers.
Proof.
  induction answers as [|answer answers IH]; cbn [firstHit].
  - split; [|done]. intros _ a Ha. by apply elem_of_nil in Ha.
  - destruct (decide (FallingAnswer.id answer ∈ hitAnswers)) as [Hhit|Hfree].
    + rewrite IH. split.
      * intros Hrest a Ha. apply elem_of_cons in Ha as [->|Ha]; [done|by apply Hrest].
      * intros Hall a Ha. apply Hall. by right.
    + destruct (decide (withinHitRadius bullet answer)) as [Hnear|Hfar].
      * split; [done|]. intros Hall. exfalso. apply Hfree, Hall; [by left|done].
      * rewrite IH. split.
        -- intros Hrest a Ha. apply elem_of_cons in Ha as [->|Ha]; [done|by apply Hrest].
        -- intros Hall a Ha. apply Hall. by right.
Qed.

Lemma checkCollisions_ids (answers : list FallingAnswer.t) (bullets' : list Bullet.t) :
  ∀ hitAnswers : gset string,
    ∃ ids : list string,
      checkCollisions bullets' answers hitAnswers = HIT_ANSWER <$> ids
      ∧ NoDup ids
      ∧ (length ids ≤ length bullets')%nat
      ∧ (∀ answerId' : string, answerId' ∈ ids →
           (answerId' ∉ hitAnswers)
           ∧ (∃ (bullet : Bullet.t) (answer : FallingAnswer.t),
                bullet ∈ bullets' ∧ answer ∈ answers
                ∧ FallingAnswer.id answer = answerId'
                ∧ withinHitRadius bullet answer))
      ∧ (∀ (bullet : Bullet.t) (answer : FallingAnswer.t),
           bullet ∈ bullets' → answer ∈ answers → withinHitRadius bullet answer →
           FallingAnswer.id answer ∈ hitAnswers
           ∨ (∃ reached : FallingAnswer.t,
                reached ∈ answers ∧ withinHitRadius bullet reached
                ∧ FallingAnswer.id reached ∈ ids)).
Proof.
  induction bullets' as [|bullet bullets' IH]; intros hitAnswers.
  - exists []. split_and!; [done|constructor|done|..].
    + intros i Hi. by apply elem_of_nil in Hi.
    + intros b a Hb. by apply elem_of_nil in Hb.
  - cbn [checkCollisions].
    destruct (firstHit bullet answers hitAnswers) as [hitId|] eqn:Hfirst.
    + destruct (IH ({[hitId]} ∪ hitAnswers))
        as (ids & -> & Hnodup & Hlength & Hsound & Hcomplete).
      apply firstHit_Some in Hfirst as (Hfresh & hit & Hhit & Hid & Hnear).
      exists (hitId :: ids). split_and!.
      * done.
      * constructor; [|done]. intros Hin. apply Hsound in Hin as [Hin _].
        apply Hin, elem_of_union. left. by apply elem_of_singleton.
      * cbn. lia.
      * intros i Hi. apply elem_of_cons in Hi as [->|Hi].
        -- split; [done|]. exists bullet, hit. split_and!; [by left|done..].
        -- destruct (Hsound i Hi) as (Hout & b & a & Hb & Ha & Hia & Hba).
           split; [intros Hhit'; apply Hout, elem_of_union; by right|].
           exists b, a. split_and!; [by right|done..].
      * intros b a Hb Ha Hba. apply elem_of_cons in Hb as [->|Hb].
        -- right. exists hit. split_and!; [done..|]. rewrite Hid. by left.
        -- destruct (Hcomplete b a Hb Ha Hba) as [Hin|(r & Hr & Hbr & Hir)].
           ++ apply elem_of_union in Hin as [Hin|Hin]; [|by left].
              apply elem_of_singleton in Hin. right. exists a.
              split_and!; [done..|]. rewrite Hin. by left.
           ++ right. exists r. split_and!; [done..|]. by right.
    + destruct (IH hitAnswers) as (ids & -> & Hnodup & Hlength & Hsound & Hcomplete).
      exists ids. split_and!; [done..|cbn; lia| |].
      * intros i Hi. destruct (Hsound i Hi) as (Hout & b & a & Hb & Ha & Hia & Hba).
        split; [done|]. exists b, a. split_and!; [by right|done..].
      * intros b a Hb Ha Hba. apply elem_of_cons in Hb as [->|Hb].
        -- left. by apply (firstHit_None bullet answers hitAnswers).
        -- by apply Hcomplete.
Qed.

(** X21. The collision check of a frame dispatches only HIT_ANSWER actions:
    at most one per bullet, never two for the same id, and each for the id
    of an answer that lies within the hit radius of one of the bullets. *)
Theorem X21_collisions_are_sound (bullets' : list Bullet.t)
    (answers : list FallingAnswer.t) :
  ∃ ids : list string,
    checkCollisions bullets' answers ∅ = HIT_ANSWER <$> ids
    ∧ NoDup ids
    ∧ (length ids ≤ length bullets')%nat
    ∧ ∀ answerId' : string, answerId' ∈ ids →
        ∃ (bullet : Bullet.t) (answer : FallingAnswer.t),
          bullet ∈ bullets' ∧ answer ∈ answers
          ∧ FallingAnswer.id answer = answerId'
          ∧ withinHitRadius bullet answer.
Proof.
  destruct (checkCollisions_ids answers bullets' ∅)
    as (ids & Hids & Hnodup & Hlength & Hsound & _).
  exists ids. split_and!; [done..|]. intros i Hi. by apply Hsound.
Qed.

(** X22. The collision check misses nothing: if a bullet lies within the
    hit radius of an answer, the frame dispatches a HIT_ANSWER for an answer
    within the radius of that bullet; so it dispatches nothing exactly when
    no bullet is within the radius of any answer. *)
Theorem X22_collisions_are_complete (bullets' : list Bullet.t)
    (answers : list FallingAnswer.t) :
  (∀ (bullet : Bullet.t) (answer : FallingAnswer.t),
     bullet ∈ bullets' → answer ∈ answers → withinHitRadius bullet answer →
     ∃ reached : FallingAnswer.t,
       reached ∈ answers ∧ withinHitRadius bullet reached
       ∧ HIT_ANSWER (FallingAnswer.id reached) ∈ checkCollisions bullets' answers ∅)
  ∧ (checkCollisions bullets' answers ∅ = []
     ↔ ∀ (bullet : Bullet.t) (answer : FallingAnswer.t),
         bullet ∈ bullets' → answer ∈ answers → ¬ withinHitRadius bullet answer).
Proof.
  destruct (checkCollisions_ids answers bullets' ∅)
    as (ids & Hids & _ & _ & Hsound & Hcomplete).
  assert (Hreached : ∀ (bullet : Bullet.t) (answer : FallingAnswer.t),
    bullet ∈ bullets' → answer ∈ answers → withinHitRadius bullet answer →
    ∃ reached : FallingAnswer.t,
      reached ∈ answers ∧ withinHitRadius bullet reached
      ∧ HIT_ANSWER (FallingAnswer.id reached) ∈ checkCollisions bullets' answers ∅).
  { intros b a Hb Ha Hba.
    destruct (Hcomplete b a Hb Ha Hba) as [Hin|(r & Hr & Hbr & Hir)];
      [by apply not_elem_of_empty in Hin|].
    exists r. split_and!; [done..|]. rewrite Hids. by apply list_elem_of_fmap_2. }
  split; [done|]. split.
  - intros Hnone b a Hb Ha Hba.
    destruct (Hreached b a Hb Ha Hba) as (r & _ & _ & Hin).
    rewrite Hnone in Hin. by apply elem_of_nil in Hin.
  - intros Hfar. rewrite Hids. destruct ids as [|i ids]; [done|].
    destruct (Hsound i) as (_ & b & a & Hb & Ha & _ & Hba); [by left|].
    by destruct (Hfar b a Hb Ha).
Qed.

(** ** One frame *)

(** X23. A run of the frame loop dispatches UPDATE_TIMER, UPDATE_GAME and
    UPDATE_BULLETS, in this order, and then the hits of the collision check
    on the bullets and answers of the snapshot.  The seconds it takes off
    the countdown are the milliseconds since the last frame divided by
    1000.2 (16.67 times 60), and 0 in the first frame after a start, when
    [lastTimeRef] is 0; a clock that went backwards makes them negative.  The
    loop remembers the clock reading and asks for another frame exactly when
    the snapshot is playing. *)
Theorem X23_frame (snapshot : GameState) (lastTime' : Z) (w : World) :
  let now := clock w 0%nat in
  let elapsed := now - (if decide (lastTime' = 0) then now else lastTime') in
  let frame := (gameLoop snapshot lastTime' w).1 in
  ∃ seconds frames : Qc,
    dispatched frame =
      UPDATE_TIMER seconds :: UPDATE_GAME frames :: UPDATE_BULLETS
        :: checkCollisions (bullets snapshot) (fallingAnswers snapshot) ∅
    ∧ (Qc_of_Z 5001 * seconds = Qc_of_Z 5 * Qc_of_Z elapsed)%Qc
    ∧ (frames = Qc_of_Z 60 * seconds)%Qc
    ∧ (lastTime' = 0 → seconds = Qc_of_Z 0)
    ∧ (lastTime' ≠ 0 → now < lastTime' → (seconds < Qc_of_Z 0)%Qc)
    ∧ lastTime frame = now
    ∧ (rescheduled frame = true ↔ status snapshot = playing).
Proof.
  intros now elapsed frame. subst frame. unfold gameLoop. cbn [Date_now fst].
  fold now. fold elapsed.
  set (deltaTime := (Qc_of_Z elapsed / Q2Qc (1667 # 100))%Qc).
  assert (Hscale : (Qc_of_Z 5001 * (deltaTime / Qc_of_Z 60)
                    = Qc_of_Z 5 * Qc_of_Z elapsed)%Qc).
  { subst deltaTime. generalize (Qc_of_Z elapsed). intros ms.
    replace (Q2Qc (1667 # 100)) with (Qc_of_Z 1667 / Qc_of_Z 100)%Qc
      by (by apply Qc_is_canon).
    replace (Qc_of_Z 5001) with (Qc_of_Z 1667 * Qc_of_Z 3)%Qc by (by apply Qc_is_canon).
    replace (Qc_of_Z 60) with (Qc_of_Z 3 * Qc_of_Z 20)%Qc by (by apply Qc_is_canon).
    replace (Qc_of_Z 100) with (Qc_of_Z 5 * Qc_of_Z 20)%Qc by (by apply Qc_is_canon).
    field. split_and!; by intros [=]%(f_equal this). }
  exists (deltaTime / Qc_of_Z 60)%Qc, deltaTime. cbn [dispatched lastTime rescheduled].
  split_and!.
  - done.
  - done.
  - symmetry. apply Qcmult_div_r. by intros [=]%(f_equal this).
  - intros Hfirst. subst elapsed. rewrite decide_True, Z.sub_diag in Hscale by done.
    revert Hscale. generalize (deltaTime / Qc_of_Z 60)%Qc. intros s Hs. qc_lra.
  - intros Hlater Hback. subst elapsed. rewrite decide_False in Hscale by done.
    assert (Hneg : (Qc_of_Z (now - lastTime') < Qc_of_Z 0)%Qc)
      by (apply (Z2Qc_inj_lt (now - lastTime') 0); lia).
    revert Hscale Hneg.
    generalize (deltaTime / Qc_of_Z 60)%Qc, (Qc_of_Z (now - lastTime')).
    intros s ms Hs Hms. qc_lra.
  - done.
  - by rewrite bool_decide_eq_true.
Qed.

(** ** Keys and buttons *)

(** X24. The keys do nothing unless the game is playing, and no key but
    the two arrows and the space bar ever does anything.  While the game is
    playing, with the ship inside the play area, the left arrow moves the
    ship 20 to the left and the right arrow 20 to the right, but not beyond
    30 and 770, and the space bar dispatches SHOOT; the two buttons on the
    screen move the ship by 30, within the same bounds. *)
Theorem X24_keys_and_buttons `{MathUtils} (state : GameState) (w : World) :
  (status state ≠ playing → ∀ key : string, handleKeyDown state key = [])
  ∧ (∀ key : string,
       key ∉ ["ArrowLeft"; "ArrowRight"; " "; "Space"] →
       handleKeyDown state key = [])
  ∧ (status state = playing →
     (Qc_of_Z 30 ≤ playerX state ≤ Qc_of_Z 770)%Qc →
     dispatchAll state (handleKeyDown state "ArrowLeft") w
     = (movedTo state (playerX state - Qc_of_Z 20)%Qc, w)
     ∧ playerX (movedTo state (playerX state - Qc_of_Z 20)%Qc)
       = Math.max (Qc_of_Z 30) (playerX state - Qc_of_Z 20)%Qc
     ∧ dispatchAll state (handleKeyDown state "ArrowRight") w
       = (movedTo state (playerX state + Qc_of_Z 20)%Qc, w)
     ∧ playerX (movedTo state (playerX state + Qc_of_Z 20)%Qc)
       = Math.min (Qc_of_Z 770) (playerX state + Qc_of_Z 20)%Qc
     ∧ dispatchAll state (handleKeyDown state " ") w = gameReducer state SHOOT w
     ∧ dispatchAll state (handleKeyDown state "Space") w = gameReducer state SHOOT w
     ∧ playerX (gameReducer state (leftButton state) w).1
       = Math.max (Qc_of_Z 30) (playerX state - Qc_of_Z 30)%Qc
     ∧ playerX (gameReducer state (rightButton state) w).1
       = Math.min (Qc_of_Z 770) (playerX state + Qc_of_Z 30)%Qc).
Proof.
  split_and!.
  - intros Hidle key. unfold handleKeyDown. by rewrite decide_True.
  - intros key Hother. unfold handleKeyDown. rewrite !not_elem_of_cons in Hother.
    destruct Hother as (Hleft & Hright & Hspace & HSpace & _).
    case_decide; [done|]. rewrite !decide_False; [done|tauto|done|done].
  - intros Hplaying [Hship30 Hship770].
    assert (Hbounds : (Qc_of_Z 30 ≤ Qc_of_Z 770)%Qc) by (by apply Z2Qc_inj_le).
    assert (Hleft : ∀ step : Qc, (Qc_of_Z 0 ≤ step)%Qc →
      clamp (playerX state - step) (Qc_of_Z 30) (Qc_of_Z 770)
      = Math.max (Qc_of_Z 30) (playerX state - step)%Qc).
    { intros step Hstep. rewrite <-Math_max_min_clamp by done.
      f_equal. apply Math_min_r. qc_lra. }
    assert (Hright : ∀ step : Qc, (Qc_of_Z 0 ≤ step)%Qc →
      clamp (playerX state + step) (Qc_of_Z 30) (Qc_of_Z 770)
      = Math.min (Qc_of_Z 770) (playerX state + step)%Qc).
    { intros step Hstep. rewrite <-Math_max_min_clamp by done.
      apply Math_max_r. unfold Math.min. case_decide; qc_lra. }
    assert (H20 : (Qc_of_Z 0 ≤ Qc_of_Z 20)%Qc) by (by vm_compute).
    assert (H30 : (Qc_of_Z 0 ≤ Qc_of_Z 30)%Qc) by (by vm_compute).
    assert (Hkeys : ∀ key : string, handleKeyDown state key =
      if decide (key = "ArrowLeft") then
        [MOVE_PLAYER (Math.max (PLAYER_SIZE / Qc_of_Z 2) (playerX state - Qc_of_Z 20))%Qc]
      else if decide (key = "ArrowRight") then
        [MOVE_PLAYER
           (Math.min (GAME_WIDTH - PLAYER_SIZE / Qc_of_Z 2) (playerX state + Qc_of_Z 20))%Qc]
      else if decide (key = " " ∨ key = "Space") then [SHOOT]
      else []).
    { intros key. unfold handleKeyDown. by rewrite decide_False by (by intros ?). }
    assert (Hkey_left : handleKeyDown state "ArrowLeft" =
      [MOVE_PLAYER (Math.max (PLAYER_SIZE / Qc_of_Z 2) (playerX state - Qc_of_Z 20))%Qc])
      by (by rewrite Hkeys, decide_True).
    assert (Hkey_right : handleKeyDown state "ArrowRight" =
      [MOVE_PLAYER
         (Math.min (GAME_WIDTH - PLAYER_SIZE / Qc_of_Z 2) (playerX state + Qc_of_Z 20))%Qc])
      by (by rewrite Hkeys, decide_False, decide_True).
    assert (Hkey_space : handleKeyDown state " " = [SHOOT])
      by (rewrite Hkeys, decide_False, decide_False by done;
          by rewrite decide_True by (by left)).
    assert (Hkey_Space : handleKeyDown state "Space" = [SHOOT])
      by (rewrite Hkeys, decide_False, decide_False by done;
          by rewrite decide_True by (by right)).
    rewrite Hkey_left, Hkey_right, Hkey_space, Hkey_Space.
    unfold leftButton, rightButton.
    rewrite right_bound, half_player_width.
    cbn [dispatchAll]. rewrite !gameReducer_move_player.
    cbn [fst playerX movedTo]. split_and!.
    + unfold movedTo. do 2 f_equal. rewrite Hleft by done.
      apply clamp_inside. unfold Math.max. case_decide; split; qc_lra.
    + by apply Hleft.
    + unfold movedTo. do 2 f_equal. rewrite Hright by done.
      apply clamp_inside. unfold Math.min. case_decide; split; qc_lra.
    + by apply Hright.
    + by destruct (gameReducer state SHOOT w).
    + by destruct (gameReducer state SHOOT w).
    + by apply Hleft.
    + by apply Hright.
Qed.

(** X24 on the sample game, whose ship is at 400. *)
Lemma X24_keys_and_buttons_witness :
  playerX (@dispatchAll sampleMathUtils sampleGame
             (handleKeyDown sampleGame "ArrowLeft") sampleWorld).1
  = Math.max (Qc_of_Z 30) (playerX sampleGame - Qc_of_Z 20)%Qc
  ∧ handleKeyDown createInitialState "ArrowLeft" = [].
Proof.
  destruct (@X24_keys_and_buttons sampleMathUtils sampleGame sampleWorld)
    as (_ & _ & Hplaying).
  destruct (@X24_keys_and_buttons sampleMathUtils createInitialState sampleWorld)
    as [Hidle _].
  split; [|by apply Hidle].
  destruct Hplaying as (-> & Hleft & _); [done|by vm_compute|]. exact Hleft.
Defined.

(** ** The game-over screen *)

Lemma isNewHighScore_offered (state ended : GameState) (settings' : GameSettings)
    (w : World) :
  settings state = Some settings' →
  settings ended = Some settings' →
  score ended = score state →
  getItem_throws (storage w) = false →
  setItem_throws (storage w) = false →
  isNewHighScore ended (scoreOffered state w) = true
  ↔ 0 < score state ∧ (getHighScore settings' w).1 ≤ score state.
Proof.
  intros Hsettings Hended Hscore Hget Hset.
  unfold isNewHighScore, scoreOffered. rewrite Hsettings, Hended, Hscore.
  rewrite getHighScore_after_save, saveHighScore_unfold, Hset.
  rewrite andb_true_iff, !bool_decide_eq_true.
  destruct (decide ((getHighScore settings' w).1 < score state)) as [Hbetter|Hworse];
    cbn [fst].
  - rewrite decide_True by done. split; intros [Hpos _]; (split; [done|lia]).
  - rewrite decide_False by (by intros [? _]). split; intros [Hpos ?]; (split; [done|lia]).
Qed.

(** X25. When a game with settings ends, by the countdown or by the last
    life, over a store that works, the game-over screen announces a new high
    score exactly when the score is positive and at least the best stored
    before: a score that only equals the stored best is announced as well,
    although nothing new is recorded. *)
Theorem X25_new_high_score_announced `{MathUtils} (state : GameState)
    (settings' : GameSettings) (w : World) :
  settings state = Some settings' →
  getItem_throws (storage w) = false →
  setItem_throws (storage w) = false →
  (∀ deltaTime : Qc,
     status state = playing →
     (Qc_of_Z 0 < timeRemaining state)%Qc → (timeRemaining state ≤ deltaTime)%Qc →
     let ended := gameReducer state (UPDATE_TIMER deltaTime) w in
     status ended.1 = gameOver
     ∧ (isNewHighScore ended.1 ended.2 = true
        ↔ 0 < score state ∧ (getHighScore settings' w).1 ≤ score state))
  ∧ (∀ (hitId : string) (answer : FallingAnswer.t),
       findAnswer hitId (fallingAnswers state) = Some answer →
       FallingAnswer.isCorrect answer = false →
       lives state ≤ 1 →
       let ended := gameReducer state (HIT_ANSWER hitId) w in
       status ended.1 = gameOver
       ∧ (isNewHighScore ended.1 ended.2 = true
          ↔ 0 < score state ∧ (getHighScore settings' w).1 ≤ score state))
  ∧ ((getHighScore settings' w).1 = score state →
     storage (scoreOffered state w) = storage w).
Proof.
  intros Hsettings Hget Hset. split_and!.
  - intros deltaTime Hplaying Hleft Hout ended. subst ended.
    rewrite gameReducer_update_timer_playing by done.
    rewrite decide_True by done. cbn [fst snd]. split; [done|].
    by apply (isNewHighScore_offered state (timedOut state) settings').
  - intros hitId answer Hfind Hwrong Hlives ended. subst ended.
    rewrite (gameReducer_hit_wrong_fatal state hitId answer) by done.
    cbn [fst snd]. split; [done|].
    by apply (isNewHighScore_offered state (defeated state) settings').
  - intros Htie. unfold scoreOffered. rewrite Hsettings.
    apply saveHighScore_keeps. lia.
Qed.

(** X25 on the sample game on its last life, with a score of 20 over a
    stored best of 20: the wrong hit ends the game and the tie is
    announced. *)
Lemma X25_new_high_score_announced_witness :
  let ended := @gameReducer sampleMathUtils lastLifeGame (HIT_ANSWER wrongId) tieWorld in
  isNewHighScore ended.1 ended.2 = true ∧ storage ended.2 = storage tieWorld.
Proof.
  assert (Hfind : is_Some (findAnswer wrongId (fallingAnswers lastLifeGame)))
    by (by eexists).
  destruct Hfind as [answer Hfind].
  assert (Hwrong : FallingAnswer.isCorrect answer = false)
    by (by injection Hfind as <-).
  destruct (@X25_new_high_score_announced sampleMathUtils lastLifeGame sampleSettings
              tieWorld eq_refl eq_refl eq_refl) as (_ & Hlast & _).
  destruct (Hlast wrongId answer Hfind Hwrong) as [_ Hnew]; [by vm_compute|].
  split; [|reflexivity]. apply Hnew. by vm_compute.
Defined.

(** ** The menu *)

Lemma getNumberRange_elem (op : OperationType) (n : Z) :
  n ∈ getNumberRange op
  ↔ 0 ≤ n ≤ match op with multiplication | division => 12 | _ => 10 end.
Proof.
  unfold getNumberRange. rewrite list_elem_of_fmap. split.
  - intros (k & -> & Hk). apply list_elem_of_In, in_seq in Hk. destruct op; lia.
  - intros Hn. exists (Z.to_nat n). split; [lia|].
    apply list_elem_of_In, in_seq. destruct op; lia.
Qed.

(** X26. [handleStartGame] starts a game exactly when an operation is chosen
    and, for the practice of a specific number, a number is chosen; whenever
    the menu shows the start button it does.  The settings it passes on have
    the chosen operation and duration, the practice mode "all" unless
    "specific" was chosen, and a number exactly when the mode is
    "specific". *)
Theorem X26_start_needs_valid_choices (m : Menu.t) :
  (is_Some (handleStartGame m)
   ↔ is_Some (Menu.operation m)
     ∧ ¬ (Menu.practiceMode m = Some specific_number ∧ Menu.specificNumber m = None))
  ∧ (rendered m StartButton → is_Some (handleStartGame m))
  ∧ ∀ settings' : GameSettings,
      handleStartGame m = Some settings' →
      Menu.operation m = Some (operation settings')
      ∧ practiceDuration settings' = Menu.practiceDuration m
      ∧ (practiceMode settings' = specific_number
         ↔ Menu.practiceMode m = Some specific_number)
      ∧ (practiceMode settings' = specific_number ↔ is_Some (specificNumber settings'))
      ∧ (practiceMode settings' = specific_number →
         specificNumber settings' = Menu.specificNumber m).
Proof.
  unfold handleStartGame, rendered.
  destruct (Menu.operation m) as [op|],
    (Menu.practiceMode m) as [[|]|], (Menu.specificNumber m) as [n|];
    cbn; split_and!; try (intros ? [= <-]; cbn; split_and!);
    rewrite ?is_Some_alt; cbn; intuition congruence.
Qed.

Lemma menuReachable_invariant (m : Menu.t) :
  menuReachable m →
  (Menu.practiceDuration m = 30 ∨ Menu.practiceDuration m = 60
   ∨ Menu.practiceDuration m = 90)
  ∧ (∀ n : Z, Menu.specificNumber m = Some n → 0 ≤ n ≤ 12)
  ∧ (is_Some (Menu.practiceMode m) → is_Some (Menu.operation m)).
Proof.
  induction 1 as [|m button _ (Hduration & Hnumber & Hmode) Hrendered].
  - cbn. split_and!; [by right; left|done|]. intros [mode Hnone]. done.
  - destruct button; cbn in *; split_and!; try done; try tauto.
    intros n [= <-]. destruct Hrendered as (_ & op & _ & Hin).
    apply getNumberRange_elem in Hin. destruct op; lia.
Qed.

(** X27. Whatever is clicked in the menu, a game started from it has a
    duration of 30, 60 or 90 seconds, which is the time on its countdown,
    and practises a number between 0 and 12 if it practises one. *)
Theorem X27_games_from_the_menu `{MathUtils} (m : Menu.t) (settings' : GameSettings)
    (state : GameState) (w : World) :
  menuReachable m →
  handleStartGame m = Some settings' →
  let started := (gameReducer state (START_GAME settings') w).1 in
  practiceDuration settings' ∈ [30; 60; 90]
  ∧ timeRemaining started = Qc_of_Z (practiceDuration settings')
  ∧ (Qc_of_Z 30 ≤ timeRemaining started)%Qc
  ∧ status started = playing
  ∧ (∀ n : Z, specificNumber settings' = Some n → 0 ≤ n ≤ 12)
  ∧ nonNegative settings'.
Proof.
  intros Hreachable Hstart started.
  destruct (menuReachable_invariant m Hreachable) as (Hduration & Hnumber & _).
  assert (Hsame : practiceDuration settings' = Menu.practiceDuration m
                  ∧ ∀ n, specificNumber settings' = Some n →
                         Menu.specificNumber m = Some n).
  { unfold handleStartGame in Hstart.
    destruct (Menu.operation m) as [op|]; [|done].
    destruct (Menu.practiceMode m) as [[|]|], (Menu.specificNumber m) as [k|];
      try done; injection Hstart as <-; by cbn. }
  destruct Hsame as [Hd Hn]. rewrite Hd.
  assert (Htime : timeRemaining started = Qc_of_Z (Menu.practiceDuration m)).
  { subst started. unfold gameReducer.
    destruct (generateNewProblem settings' w) as [[problem answers] w'].
    cbn. by rewrite Hd. }
  assert (Hplaying : status started = playing).
  { subst started. unfold gameReducer.
    by destruct (generateNewProblem settings' w) as [[problem answers] w']. }
  assert (Hlong : 30 ≤ Menu.practiceDuration m) by lia.
  split_and!; try done.
  - rewrite !elem_of_cons. tauto.
  - rewrite Htime. by apply (Z2Qc_inj_le 30 (Menu.practiceDuration m)).
  - intros n Hsome. by apply Hnumber, Hn.
  - split; [lia|]. intros n Hslot. unfold scoreSlot in Hslot.
    destruct (practiceMode settings'), (specificNumber settings') as [k|] eqn:Hk;
      try done.
    injection Hslot as <-. by apply Hnumber, Hn.
Qed.

Lemma sampleMenu_reachable : menuReachable sampleMenu.
Proof.
  unfold sampleMenu. repeat apply menuReachable_click;
    [apply menuReachable_initial|done|by eexists|].
  split; [done|]. exists multiplication. split; [done|].
  apply getNumberRange_elem. lia.
Qed.

(** X27 on the menu after choosing multiplication and the number 12. *)
Lemma X27_games_from_the_menu_witness :
  ∃ settings' : GameSettings,
    handleStartGame sampleMenu = Some settings'
    ∧ specificNumber settings' = Some 12
    ∧ timeRemaining
        (@gameReducer sampleMathUtils createInitialState (START_GAME settings')
           sampleWorld).1 = Qc_of_Z 60.
Proof.
  eexists. split; [reflexivity|]. split; [reflexivity|].
  destruct (@X27_games_from_the_menu sampleMathUtils sampleMenu _ createInitialState
              sampleWorld sampleMenu_reachable eq_refl) as (_ & Htime & _).
  exact Htime.
Defined.

(** The number chosen outlives the choice of another operation: after
    multiplication with 12, choosing addition and the practice of a specific
    number shows the start button at once, and the game practises 12, which
    the menu does not offer for addition. *)
Example stale_number_reaches_the_game :
  menuReachable staleMenu
  ∧ rendered staleMenu StartButton
  ∧ ∃ settings' : GameSettings,
      handleStartGame staleMenu = Some settings'
      ∧ operation settings' = addition
      ∧ specificNumber settings' = Some 12
      ∧ 12 ∉ getNumberRange addition.
Proof.
  split_and!.
  - unfold staleMenu. apply menuReachable_click; [|by eexists].
    apply menuReachable_click; [apply sampleMenu_reachable|done].
  - split; [by eexists|]. right. split; [done|by eexists].
  - eexists. split_and!; [reflexivity..|].
    rewrite getNumberRange_elem. lia.
Qed.
